(** * AHK v2 script feed: fetch, normalize, merge, query

    A shallow embedding of the JavaScript pipeline of the repository:
    - [Manager]: class [ScriptUpdateManager] (browser side);
    - [Build]:   [scripts/build.js] (manifest build tool);
    - [UpdateFeed]: [scripts/update-feed.js] (standalone feed updater).

    JavaScript strings are embedded as [string]; integers as [Z]; a value
    that may be [undefined]/[null] as an [option]; arrays as [list]. *)

From Stdlib Require Import ZArith List Ascii String Bool Lia Permutation.
From stdpp Require Import gmap strings list pretty sorting.
Import ListNotations.

Local Open Scope string_scope.
Local Open Scope list_scope.
Local Open Scope Z_scope.

(** ** Host-language primitives *)

Module JS.

(** [a > b] on two strings: lexicographic comparison of the code units. *)
Definition string_gt (a b : string) : bool := String.ltb b a.

(** [a > b] and [a < b] on two numbers; [None] is [NaN], and every
    comparison with [NaN] is false.  [new Date(a) > new Date(b)] is [num_gt]
    on the time values of the two dates ([NaN] for an invalid date). *)
Definition num_gt (a b : option Z) : bool :=
  match a, b with
  | Some x, Some y => y <? x
  | _, _ => false
  end.

Definition num_lt (a b : option Z) : bool := num_gt b a.

(** [x || dflt] for a string that may be absent: the empty string is falsy. *)
Definition or_else (x : option string) (dflt : string) : string :=
  match x with
  | Some s => if String.eqb s "" then dflt else s
  | None => dflt
  end.

(** [x || []] for an array that may be absent (every array is truthy). *)
Definition or_empty {A} (x : option (list A)) : list A :=
  match x with
  | Some l => l
  | None => []
  end.

(** [Array.prototype.findIndex]: first index whose element satisfies [p],
    [-1] when there is none. *)
Fixpoint findIndex {A} (p : A -> bool) (l : list A) : Z :=
  match l with
  | [] => -1
  | x :: l' =>
      if p x then 0
      else let i := findIndex p l' in if i <? 0 then -1 else i + 1
  end.

(** [Array.prototype.slice(start, end)], negative positions counting from
    the end of the array. *)
Definition slice {A} (start stop : Z) (l : list A) : list A :=
  let len := Z.of_nat (List.length l) in
  let k := if start <? 0 then Z.max (len + start) 0 else Z.min start len in
  let final := if stop <? 0 then Z.max (len + stop) 0 else Z.min stop len in
  firstn (Z.to_nat (final - k)) (skipn (Z.to_nat k) l).

(** [String.prototype.includes]: [sub] occurs somewhere in [s]. *)
Fixpoint includes (s sub : string) : bool :=
  String.prefix sub s ||
  match s with
  | EmptyString => false
  | String _ s' => includes s' sub
  end.

(** [Array.prototype.sort(comparefn)]: a stable sort (ECMAScript 2019); a
    [NaN] returned by the comparator counts as [0].  Embedded as a stable
    insertion sort. *)
Definition sortCompare {A} (comparefn : A -> A -> option Z) (x y : A) : Z :=
  match comparefn x y with
  | Some v => v
  | None => 0
  end.

Fixpoint insert_sorted {A} (comparefn : A -> A -> option Z) (x : A) (l : list A) : list A :=
  match l with
  | [] => [x]
  | y :: l' =>
      if sortCompare comparefn x y <=? 0 then x :: y :: l'
      else y :: insert_sorted comparefn x l'
  end.

Definition sort {A} (comparefn : A -> A -> option Z) (l : list A) : list A :=
  fold_right (insert_sorted comparefn) [] l.

(** Arrays are objects: a variable holds a reference into a heap of arrays,
    [sort] works in place and returns its receiver, while the spread
    [[...a]] and [slice] allocate a new array. *)
Abbreviation Ref := nat.

Definition alloc {A} (l : list A) (h : gmap Ref (list A)) : Ref * gmap Ref (list A) :=
  let r := fresh (dom h) in (r, <[r := l]> h).

Definition spread_at {A} (r : Ref) (h : gmap Ref (list A)) : option (Ref * gmap Ref (list A)) :=
  l ← h !! r; Some (alloc l h).

Definition sort_at {A} (comparefn : A -> A -> option Z) (r : Ref) (h : gmap Ref (list A))
  : option (Ref * gmap Ref (list A)) :=
  l ← h !! r; Some (r, <[r := sort comparefn l]> h).

Definition slice_at {A} (start stop : Z) (r : Ref) (h : gmap Ref (list A))
  : option (Ref * gmap Ref (list A)) :=
  l ← h !! r; Some (alloc (slice start stop l) h).

(** A [Set] of strings keeps its elements in insertion order: [add] appends
    a value that is not yet in the set, and the spread [[...set]] lists the
    elements in that order. *)
Definition set_add (x : string) (s : list string) : list string :=
  if bool_decide (x ∈ s) then s else s ++ [x].

(** [new Set(values)] *)
Definition set_of (values : list string) : list string :=
  fold_left (fun s x => set_add x s) values [].

(** The comparator of [sort()] called without one, on strings: the order of
    the code units. *)
Definition compare_strings (a b : string) : option Z :=
  Some match String.compare a b with
       | Lt => -1
       | Eq => 0
       | Gt => 1
       end.

End JS.

(** ** Data model *)

(** A canonical record of the collection (a "script"). *)
Record Script := mkScript {
  id : string;
  title : string;
  category : string;
  description : string;
  tags : option (list string);
  difficulty : string;
  dateAdded : string;
  lastModified : string;
  source : string;
  url : option string;
  stars : option Z;
  forks : option Z;
  owner : option string;
  code : string
}.

(** A repository as the GitHub search API returns it. *)
Record RawOwner := mkRawOwner {
  login : string;
  avatar_url : string;
  owner_html_url : string
}.

Record RawLicense := mkRawLicense {
  spdx_id : option string;
  license_name : string
}.

Record RawRepo := mkRawRepo {
  repo_id : Z;
  name : string;
  full_name : string;
  html_url : string;
  clone_url : string;
  repo_description : option string;
  stargazers_count : Z;
  forks_count : Z;
  language : option string;
  topics : option (list string);
  updated_at : string;
  created_at : string;
  pushed_at : string;
  repo_owner : option RawOwner;
  default_branch : option string;
  open_issues_count : Z;
  license : option RawLicense;
  archived : bool;
  fork : bool
}.

(** ** The merge loop shared by both [mergeScripts] *)

Section Merge.

(** [newer script existing]: the guard under which an incoming record
    overwrites the stored one. *)
Variable newer : Script -> Script -> bool.

Definition same_id (script s : Script) : bool := String.eqb (id s) (id script).

(** One iteration of [for (const script of newScripts)] on the pair
    (array, [existingIds]). *)
Definition merge_step (st : list Script * gset string) (script : Script)
  : list Script * gset string :=
  let '(scripts, existingIds) := st in
  if negb (bool_decide (id script ∈ existingIds)) then
    (scripts ++ [script], {[id script]} ∪ existingIds)
  else
    let index := JS.findIndex (same_id script) scripts in
    match scripts !! Z.to_nat index with
    | Some existing =>
        if (0 <=? index) && newer script existing
        then (<[Z.to_nat index := script]> scripts, existingIds)
        else (scripts, existingIds)
    | None => (scripts, existingIds)
    end.

Definition merge_loop (scripts : list Script) (newScripts : list Script) : list Script :=
  fst (fold_left merge_step newScripts
         (scripts, list_to_set ((id <$> scripts)))).

(** The same loop as a function on the array alone, for reasoning. *)
Fixpoint upsert (script : Script) (l : list Script) : list Script :=
  match l with
  | [] => [script]
  | s :: l' =>
      if same_id script s
      then (if newer script s then script :: l' else s :: l')
      else s :: upsert script l'
  end.

End Merge.

(** ** Effects: exceptions, console, storage, clock, network *)

(** A thrown value: an [Error] created by the code with its message, or an
    error raised by the host ([SyntaxError], [TypeError], ...). *)
Inductive Error :=
  | Err (message : string)
  | Native (kind : string).

Definition error_message (e : Error) : string :=
  match e with
  | Err m => m
  | Native k => k
  end.

Inductive Completion (A : Type) :=
  | Normal (a : A)
  | Throw (e : Error).
Arguments Normal {A} a.
Arguments Throw {A} e.

Inductive Level := LogInfo | LogWarn | LogError.

Record LogEntry := mkLog {
  level : Level;
  text : string;
  detail : option Error
}.

(** An HTTP exchange: the request fails at the network level, or a response
    arrives with a status code, its raw body [data] and, when the body is
    valid JSON, the [items] field of the parsed object. *)
Inductive HttpResult :=
  | NetworkFailure (e : Error)
  | Response (status : Z) (data : string) (parsed : option (option (list RawRepo))).

(** A [localStorage] item: text that is not a JSON cache object, or the JSON
    of an object with (possibly missing) [scripts] and [timestamp]. *)
Inductive Stored :=
  | Text (s : string)
  | CacheJson (scripts : option (list Script)) (timestamp : option Z).

Record World := mkWorld {
  localStorage : option (gmap string Stored);
  storageFull : bool;
  console : list LogEntry;
  clock : nat -> Z;
  ticks : nat;
  network : nat -> string -> HttpResult;
  requests : nat;
  notified : list (nat * list Script * option string)
}.

(** State and exception monad of the statements of a function body. *)
Definition M (S A : Type) : Type := S -> Completion A * S.

#[global] Instance M_ret {S} : MRet (M S) := fun A a s => (Normal a, s).
#[global] Instance M_bind {S} : MBind (M S) := fun A B f m s =>
  match m s with
  | (Normal a, s') => f a s'
  | (Throw e, s') => (Throw e, s')
  end.

Definition throw {S A} (e : Error) : M S A := fun s => (Throw e, s).

(** [try { body } catch (error) { handler }] *)
Definition try_catch {S A} (body : M S A) (handler : Error -> M S A) : M S A :=
  fun s =>
    match body s with
    | (Normal a, s') => (Normal a, s')
    | (Throw e, s') => handler e s'
    end.

Definition get {S} : M S S := fun s => (Normal s, s).
Definition modify {S} (f : S -> S) : M S unit := fun s => (Normal tt, f s).

(** A sub-computation on a component of the state. *)
Definition zoom {S T A} (proj : S -> T) (upd : T -> S -> S) (m : M T A) : M S A :=
  fun s => let '(r, t') := m (proj s) in (r, upd t' s).

(** Lifting of a pure computation that may throw. *)
Definition lift {S A} (c : Completion A) : M S A := fun s => (c, s).


(** [xs.map(f)] for an [f] that may throw: the first exception aborts. *)
Fixpoint map_throwing {A B} (f : A -> Completion B) (xs : list A) : Completion (list B) :=
  match xs with
  | [] => Normal []
  | x :: xs' =>
      match f x with
      | Throw e => Throw e
      | Normal y =>
          match map_throwing f xs' with
          | Throw e => Throw e
          | Normal ys => Normal (y :: ys)
          end
      end
  end.

Module Console.
Definition write (l : Level) (t : string) (d : option Error) : M World unit :=
  modify (fun w => mkWorld (localStorage w) (storageFull w)
                     (console w ++ [mkLog l t d])
                     (clock w) (ticks w) (network w) (requests w) (notified w)).
Definition log (t : string) : M World unit := write LogInfo t None.
Definition warn (t : string) : M World unit := write LogWarn t None.
Definition error (t : string) (d : option Error) : M World unit := write LogError t d.
End Console.

(** [Date.now()]: one reading of the clock. *)
Definition Date_now : M World Z := fun w =>
  (Normal (clock w (ticks w)),
   mkWorld (localStorage w) (storageFull w) (console w)
     (clock w) (S (ticks w)) (network w) (requests w) (notified w)).

(** One HTTP GET: the next exchange of the network. *)
Definition http_get (url : string) : M World HttpResult := fun w =>
  (Normal (network w (requests w) url),
   mkWorld (localStorage w) (storageFull w) (console w)
     (clock w) (ticks w) (network w) (S (requests w)) (notified w)).

(** [localStorage.setItem(key, JSON.stringify(value))] on an available store. *)
Definition setItem (key : string) (value : Stored) : M World unit := fun w =>
  match localStorage w with
  | None => (Throw (Native "ReferenceError"), w)
  | Some store =>
      if storageFull w then (Throw (Native "QuotaExceededError"), w)
      else (Normal tt,
            mkWorld (Some (<[key := value]> store)) (storageFull w) (console w)
              (clock w) (ticks w) (network w) (requests w) (notified w))
  end.


(** What the host platform provides and the code only calls. *)
Class Host := {
  (** [new Date(s).getTime()], [None] for an invalid date *)
  getTime : string -> option Z;
  (** [new Date(ms).toISOString()] *)
  toISOString : Z -> string;
  toLowerCase : string -> string;
  encodeURIComponent : string -> string
}.

(** ** [ScriptUpdateManager] *)

Module Manager.

Definition Callback : Type := list Script -> option string -> Completion unit.

Record Options := mkOptions {
  opt_manifestPath : option string;
  opt_cacheKey : option string;
  opt_cacheTTL : option Z;
  opt_githubApiBase : option string;
  opt_searchQuery : option string;
  opt_maxResults : option Z;
  opt_enableGitHubFetch : option bool
}.

Record Config := mkConfig {
  manifestPath : string;
  cacheKey : string;
  cacheTTL : Z;
  githubApiBase : string;
  searchQuery : string;
  maxResults : Z;
  enableGitHubFetch : bool
}.

(** The fields of an instance. *)
Record t := mkManager {
  config : Config;
  scripts : list Script;
  lastUpdate : option string;
  updateCallbacks : list Callback
}.

(** The state a method runs in: [this] and the outside world. *)
Record St := mkSt { this : t; world : World }.

Definition in_world {A} (m : M World A) : M St A :=
  zoom world (fun w s => mkSt (this s) w) m.

Definition set_scripts (l : list Script) : M St unit :=
  modify (fun s => mkSt (mkManager (config (this s)) l (lastUpdate (this s))
                           (updateCallbacks (this s))) (world s)).


(** The constructor: every default is overridden by the trailing
    [...options] when the option is given. *)
Definition constructor (options : Options) : t :=
  mkManager
    (mkConfig
       (default "scripts/ahk-scripts.json" (opt_manifestPath options))
       (default "ahk_scripts_cache" (opt_cacheKey options))
       (default 300000 (opt_cacheTTL options))
       (default "https://api.github.com" (opt_githubApiBase options))
       (default "autohotkey v2 language:AutoHotkey" (opt_searchQuery options))
       (default 50 (opt_maxResults options))
       (default true (opt_enableGitHubFetch options)))
    [] None [].

Section Methods.

Context `{Host}.

(** The template method [generateRepoCodeBlock]: a fenced text block
    rendered from the repository. *)
Variable generateRepoCodeBlock : RawRepo -> string.

(** [script.lastModified > this.scripts[index].lastModified]: both
    operands are strings, so this is a string comparison. *)
Definition newer (script existing : Script) : bool :=
  JS.string_gt (lastModified script) (lastModified existing).

Definition mergeScripts (newScripts : list Script) : M St unit :=
  s ← get;
  set_scripts (merge_loop newer (scripts (this s)) newScripts).

Definition loadFromCache : M St bool :=
  s ← get;
  match localStorage (world s) with
  | None => mret false
  | Some store =>
      r ← try_catch
            (match store !! cacheKey (config (this s)) with
             | None => mret (Some false)
             | Some (Text "") => mret (Some false)
             | Some (Text _) => throw (Native "SyntaxError")
             | Some (CacheJson cached timestamp) =>
                 now ← in_world Date_now;
                 let age := (fun ts => now - ts) <$> timestamp in
                 if JS.num_lt age (Some (cacheTTL (config (this s)))) then
                   match cached with
                   | None => throw (Native "TypeError")
                   | Some scripts =>
                       _ ← mergeScripts scripts;
                       _ ← in_world (Console.log "Loaded scripts from cache");
                       mret (Some true)
                   end
                 else mret None
             end)
            (fun error =>
               _ ← in_world (Console.error "Error loading from cache:" (Some error));
               mret None);
      mret (default false r)
  end.

Definition saveToCache : M St unit :=
  s ← get;
  match localStorage (world s) with
  | None => mret tt
  | Some _ =>
      try_catch
        (now ← in_world Date_now;
         in_world (setItem (cacheKey (config (this s)))
                     (CacheJson (Some (scripts (this s))) (Some now))))
        (fun error => in_world (Console.error "Error saving to cache:" (Some error)))
  end.

(** One element of [repos.map(repo => ({...}))]; [repo.owner.login]
    throws when the owner is missing. *)
Definition parseGitHubRepo (repo : RawRepo) : Completion Script :=
  match repo_owner repo with
  | None => Throw (Native "TypeError")
  | Some o =>
      Normal (mkScript
        ("github-" +:+ pretty (repo_id repo))
        (name repo)
        "GitHub Repository"
        (JS.or_else (repo_description repo) "No description available")
        (Some ("github" :: "repository" :: JS.or_empty (topics repo)))
        "varies"
        (created_at repo)
        (updated_at repo)
        "github"
        (Some (html_url repo))
        (Some (stargazers_count repo))
        None
        (Some (login o))
        (generateRepoCodeBlock repo))
  end.

Definition parseGitHubRepos (repos : list RawRepo) : Completion (list Script) :=
  map_throwing parseGitHubRepo repos.

Definition fetchFromGitHub : M St (list Script) :=
  s ← get;
  let cfg := config (this s) in
  if negb (enableGitHubFetch cfg) then mret []
  else
    let query := encodeURIComponent (searchQuery cfg) in
    let url := githubApiBase cfg +:+ "/search/repositories?q=" +:+ query
               +:+ "&sort=updated&per_page=" +:+ pretty (maxResults cfg) in
    try_catch
      (response ← in_world (http_get url);
       match response with
       | NetworkFailure e => throw e
       | Response status _ parsed =>
           if status =? 403 then
             _ ← in_world (Console.warn "GitHub API rate limit reached");
             mret []
           else if negb ((200 <=? status) && (status <=? 299)) then
             throw (Err ("GitHub API error: " +:+ pretty status))
           else
             match parsed with
             | None => throw (Native "SyntaxError")
             | Some items => lift (parseGitHubRepos (JS.or_empty items))
             end
       end)
      (fun error =>
         _ ← in_world (Console.error "Error fetching from GitHub:" (Some error));
         mret []).

Definition onUpdate (callback : Callback) : M St unit :=
  modify (fun s => mkSt (mkManager (config (this s)) (scripts (this s))
                           (lastUpdate (this s))
                           (updateCallbacks (this s) ++ [callback])) (world s)).




Definition search (query : string) (m : t) : list Script :=
  let lowerQuery := toLowerCase query in
  List.filter
    (fun s =>
       JS.includes (toLowerCase (title s)) lowerQuery
       || JS.includes (toLowerCase (description s)) lowerQuery
       || match tags s with
          | Some ts => existsb (fun t => JS.includes (toLowerCase t) lowerQuery) ts
          | None => false
          end)
    (scripts m).

Definition getById (i : string) (m : t) : option Script :=
  List.find (fun s => String.eqb (id s) i) (scripts m).

(** The comparator of [getRecent]:
    [new Date(b.lastModified) - new Date(a.lastModified)], [NaN] when one
    of the dates is invalid. *)
Definition byRecency (a b : Script) : option Z :=
  match getTime (lastModified b), getTime (lastModified a) with
  | Some tb, Some ta => Some (tb - ta)
  | _, _ => None
  end.

(** [getRecent(limit = 10)] on the heap of arrays; [scripts_ref] is the
    array [this.scripts] refers to. *)
Definition getRecent (limit : option Z) (scripts_ref : JS.Ref)
    (h : gmap JS.Ref (list Script)) : option (JS.Ref * gmap JS.Ref (list Script)) :=
  '(copy, h1) ← JS.spread_at scripts_ref h;
  '(sorted, h2) ← JS.sort_at byRecency copy h1;
  JS.slice_at 0 (default 10 limit) sorted h2.

(** [getByCategory], [getByTag], [getByDifficulty] *)
Definition getByCategory (c : string) (m : t) : list Script :=
  List.filter (fun s => String.eqb (category s) c) (scripts m).

Definition getByTag (tag : string) (m : t) : list Script :=
  List.filter
    (fun s => match tags s with
              | Some ts => existsb (String.eqb tag) ts
              | None => false
              end)
    (scripts m).

Definition getByDifficulty (d : string) (m : t) : list Script :=
  List.filter (fun s => String.eqb (difficulty s) d) (scripts m).

(** [getCategories]: [[...new Set(this.scripts.map(s => s.category))]] *)
Definition getCategories (m : t) : list string :=
  JS.set_of (category <$> scripts m).

(** [getAllTags]: the tags of every script that has tags, collected in a
    set, then [[...tags].sort()]. *)
Definition getAllTags (m : t) : list string :=
  JS.sort JS.compare_strings
    (fold_left
       (fun acc script =>
          match tags script with
          | Some ts => fold_left (fun acc' t => JS.set_add t acc') ts acc
          | None => acc
          end)
       (scripts m) []).

End Methods.

End Manager.

(** ** [ScriptFeedUI]: what is shown *)

Module FeedUI.

Record Filter := mkFilter {
  filter_type : string;
  filter_value : string
}.

(** [getFilteredScripts] *)
Definition getFilteredScripts `{Host} (currentFilter : option Filter)
    (manager : Manager.t) : list Script :=
  match currentFilter with
  | None => Manager.scripts manager
  | Some f =>
      if String.eqb (filter_type f) "category" then
        Manager.getByCategory (filter_value f) manager
      else if String.eqb (filter_type f) "tag" then
        Manager.getByTag (filter_value f) manager
      else if String.eqb (filter_type f) "difficulty" then
        Manager.getByDifficulty (filter_value f) manager
      else if String.eqb (filter_type f) "search" then
        Manager.search (filter_value f) manager
      else Manager.scripts manager
  end.

(** The page [render] shows:
    [scripts.slice(start, start + itemsPerPage)] with
    [start = (currentPage - 1) * itemsPerPage]. *)
Definition pageScripts (scripts : list Script) (currentPage itemsPerPage : Z)
  : list Script :=
  let start := (currentPage - 1) * itemsPerPage in
  JS.slice start (start + itemsPerPage) scripts.

(** [Math.ceil(totalItems / itemsPerPage)] of [renderPagination]; [None]
    when the division is by zero ([Infinity] or [NaN]). *)
Definition totalPages (totalItems itemsPerPage : Z) : option Z :=
  if itemsPerPage =? 0 then None
  else Some (- ((- totalItems) / itemsPerPage)).

End FeedUI.

(** ** [scripts/build.js] *)

Module Build.

Record Config := mkConfig {
  githubApiBase : string;
  searchQuery : string;
  feedLimit : Z;
  githubToken : option string
}.

Record Manifest := mkManifest {
  version : string;
  lastUpdated : option string;
  totalScripts : option Z;
  scripts : list Script;
  categories : option (list string)
}.

Inductive LogType := info | success | warn | error.

Definition esc : string := String (ascii_of_nat 27) EmptyString.
Definition reset : string := esc +:+ "[0m".

(** [prefix[type]], the coloured tag of a line. *)
Definition prefix (type : LogType) : string :=
  match type with
  | info => esc +:+ "[36m" +:+ "[INFO]" +:+ reset
  | success => esc +:+ "[32m" +:+ "[SUCCESS]" +:+ reset
  | warn => esc +:+ "[33m" +:+ "[WARN]" +:+ reset
  | error => esc +:+ "[31m" +:+ "[ERROR]" +:+ reset
  end.

(** [log(message, type)]: every line goes through [console.log]. *)
Definition log (message : string) (type : LogType) : M World unit :=
  Console.log (prefix type +:+ " " +:+ message).

Section Functions.

Context `{Host}.
Variable generateRepoCodeBlock : RawRepo -> string.
Variable CONFIG : Config.

(** [httpsRequest]: resolves with the status and the body, parsed when it
    is JSON and raw otherwise; rejects on a network error. *)
Definition httpsRequest (path : string) : M World (Z * option (option (list RawRepo))) :=
  r ← http_get path;
  match r with
  | NetworkFailure e => throw e
  | Response status _ parsed => mret (status, parsed)
  end.

Definition toScript (repo : RawRepo) : Completion Script :=
  match repo_owner repo with
  | None => Throw (Native "TypeError")
  | Some o =>
      Normal (mkScript
        ("github-" +:+ pretty (repo_id repo))
        (name repo)
        "GitHub Repository"
        (JS.or_else (repo_description repo) "No description available")
        (Some (JS.slice 0 8 ("github" :: "repository" :: JS.or_empty (topics repo))))
        "varies"
        (created_at repo)
        (updated_at repo)
        "github"
        (Some (html_url repo))
        (Some (stargazers_count repo))
        (Some (forks_count repo))
        (Some (login o))
        (generateRepoCodeBlock repo))
  end.

Definition fetchGitHubRepos : M World (list Script) :=
  _ ← log "Fetching AHK v2 repositories from GitHub..." info;
  let query := encodeURIComponent (searchQuery CONFIG) in
  let path := "/search/repositories?q=" +:+ query
              +:+ "&sort=updated&per_page=" +:+ pretty (feedLimit CONFIG) in
  _ ← (match githubToken CONFIG with
       | Some tok =>
           if String.eqb tok "" then mret tt
           else log "Using GitHub token for authentication" info
       | None => mret tt
       end);
  try_catch
    ('(status, parsed) ← httpsRequest path;
     if status =? 403 then
       _ ← log "GitHub API rate limit reached. Try again later or use a token." warn;
       mret []
     else if negb (status =? 200) then
       _ ← log ("GitHub API returned status " +:+ pretty status) error;
       mret []
     else
       let repos := JS.or_empty (default None parsed) in
       _ ← log ("Fetched " +:+ pretty (List.length repos) +:+ " repositories") success;
       lift (map_throwing toScript repos))
    (fun e =>
       _ ← log ("Error fetching from GitHub: " +:+ error_message e) error;
       mret []).

(** [new Date(script.lastModified) > new Date(existing.lastModified)] *)
Definition newer (script existing : Script) : bool :=
  JS.num_gt (getTime (lastModified script)) (getTime (lastModified existing)).

(** The loop of [mergeScripts] with its two counters; the state is
    ([manifest.scripts], [existingIds], [added], [updated]). *)
Definition merge_step (st : list Script * gset string * Z * Z) (script : Script)
  : list Script * gset string * Z * Z :=
  let '(scripts, existingIds, added, updated) := st in
  if negb (bool_decide (id script ∈ existingIds)) then
    (scripts ++ [script], {[id script]} ∪ existingIds, added + 1, updated)
  else
    let index := JS.findIndex (same_id script) scripts in
    if 0 <=? index then
      match scripts !! Z.to_nat index with
      | Some existing =>
          if newer script existing
          then (<[Z.to_nat index := script]> scripts, existingIds, added, updated + 1)
          else st
      | None => st
      end
    else st.

Definition mergeScripts (manifest : Manifest) (newScripts : list Script)
  : M World Manifest :=
  let '(scripts', _, added, updated) :=
    fold_left merge_step newScripts
      (scripts manifest, list_to_set ((id <$> scripts manifest)), 0, 0) in
  _ ← log ("Added " +:+ pretty added +:+ " new scripts, updated "
           +:+ pretty updated +:+ " existing") info;
  mret (mkManifest (version manifest) (lastUpdated manifest)
          (totalScripts manifest) scripts' (categories manifest)).

End Functions.

End Build.

(** ** [scripts/update-feed.js] *)

(** A repository of the feed file, as [normalizeRepo] builds it. *)
Module FeedRepo.
Record t := mk {
  id : Z;
  name : string;
  full_name : string;
  html_url : string;
  description : string;
  stargazers_count : Z;
  forks_count : Z;
  language : string;
  topics : list string;
  updated_at : string;
  created_at : string;
  pushed_at : string;
  owner : RawOwner;
  default_branch : option string;
  open_issues_count : Z;
  license : option string;
  is_archived : bool;
  is_fork : bool
}.
End FeedRepo.

Module UpdateFeed.

Record Config := mkConfig {
  limit : option Z;
  queries : list string
}.

(** [CONFIG] for a given value of [parseInt(process.env.FEED_LIMIT || '100')]. *)
Definition CONFIG (feed_limit : option Z) : Config :=
  mkConfig feed_limit
    [ "autohotkey v2 language:AutoHotkey";
      String (ascii_of_nat 34) "autohotkey 2" +:+ String (ascii_of_nat 34) " language:AutoHotkey";
      "ahk v2 language:AutoHotkey";
      "topic:autohotkey-v2" ].

Record Metadata := mkMetadata {
  meta_updated_at : string;
  total_count : Z;
  meta_version : string;
  meta_source : string;
  queries_used : list string
}.

Record FeedData := mkFeedData {
  metadata : Metadata;
  repositories : list FeedRepo.t
}.

Definition normalizeRepo (repo : RawRepo) : Completion FeedRepo.t :=
  match repo_owner repo with
  | None => Throw (Native "TypeError")
  | Some o =>
      Normal (FeedRepo.mk
        (repo_id repo)
        (name repo)
        (full_name repo)
        (html_url repo)
        (JS.or_else (repo_description repo) "")
        (stargazers_count repo)
        (forks_count repo)
        (JS.or_else (language repo) "AutoHotkey")
        (JS.or_empty (topics repo))
        (updated_at repo)
        (created_at repo)
        (pushed_at repo)
        (mkRawOwner (login o) (avatar_url o) (owner_html_url o))
        (default_branch repo)
        (open_issues_count repo)
        (match license repo with
         | Some lic => spdx_id lic
         | None => None
         end)
        (archived repo)
        (fork repo))
  end.

(** [repos.filter(...)] with the set [seen] of the ids met so far. *)
Fixpoint dedup_filter (seen : gset Z) (repos : list FeedRepo.t) : list FeedRepo.t :=
  match repos with
  | [] => []
  | repo :: rest =>
      if bool_decide (FeedRepo.id repo ∈ seen) then dedup_filter seen rest
      else repo :: dedup_filter ({[FeedRepo.id repo]} ∪ seen) rest
  end.

Definition deduplicateRepos (repos : list FeedRepo.t) : list FeedRepo.t :=
  dedup_filter ∅ repos.

Section Functions.

Context `{Host}.

(** [fetchFromGitHub(endpoint)]: the promise resolves with the parsed
    body (here its [items]) or rejects. *)
Definition fetchFromGitHub (endpoint : string) : M World (option (list RawRepo)) :=
  r ← http_get endpoint;
  match r with
  | NetworkFailure e => throw e
  | Response status data parsed =>
      if status =? 200 then
        match parsed with
        | Some result => mret result
        | None => throw (Err ("Failed to parse response: "
                              +:+ error_message (Native "SyntaxError")))
        end
      else if status =? 403 then
        throw (Err "GitHub API rate limit exceeded. Set GITHUB_TOKEN for higher limits.")
      else
        throw (Err ("GitHub API error: " +:+ pretty status +:+ " - " +:+ data))
  end.

Definition endpoint_of (query : string) (perPage : Z) : string :=
  "/search/repositories?q=" +:+ encodeURIComponent query
  +:+ "&sort=updated&order=desc&per_page=" +:+ pretty perPage.

Definition searchRepos (query : string) (perPage : Z) : M World (list RawRepo) :=
  _ ← Console.log ("  Searching: " +:+ query);
  result ← fetchFromGitHub (endpoint_of query perPage);
  mret (JS.or_empty result).

(** The comparator of [sortByUpdated]. *)
Definition byUpdated (a b : FeedRepo.t) : option Z :=
  match getTime (FeedRepo.updated_at b), getTime (FeedRepo.updated_at a) with
  | Some tb, Some ta => Some (tb - ta)
  | _, _ => None
  end.

Definition sortByUpdated (repos : list FeedRepo.t) : list FeedRepo.t :=
  JS.sort byUpdated repos.

(** One iteration of the loop [for (const query of CONFIG.queries)] of
    [updateFeed]; [allRepos] is the array filled so far.  (The pause of
    500 ms that ends a successful iteration has no effect on the data.) *)
Definition fetch_query (allRepos : list FeedRepo.t) (query : string)
  : M World (list FeedRepo.t) :=
  try_catch
    (repos ← searchRepos query 30;
     normalized ← lift (map_throwing normalizeRepo repos);
     mret (allRepos ++ normalized))
    (fun e =>
       _ ← Console.error ("  Error with query "
                          +:+ String (ascii_of_nat 34) query
                          +:+ String (ascii_of_nat 34) ": "
                          +:+ error_message e) None;
       mret allRepos).

Fixpoint fetch_loop (queries : list string) (allRepos : list FeedRepo.t)
  : M World (list FeedRepo.t) :=
  match queries with
  | [] => mret allRepos
  | query :: rest =>
      allRepos' ← fetch_query allRepos query;
      fetch_loop rest allRepos'
  end.

(** [updateFeed] up to the feed data it builds and returns (the data is
    also written to the output file). *)
Definition updateFeed (cfg : Config) : M World FeedData :=
  _ ← Console.log "AHK v2 Feed Updater";
  startTime ← Date_now;
  _ ← Console.log "Fetching repositories...";
  allRepos ← fetch_loop (queries cfg) [];
  _ ← Console.log "Processing results...";
  let allRepos := deduplicateRepos allRepos in
  let allRepos := sortByUpdated allRepos in
  let allRepos :=
    if JS.num_gt (Some (Z.of_nat (List.length allRepos))) (limit cfg)
    then JS.slice 0 (default 0 (limit cfg)) allRepos
    else allRepos in
  now ← Date_now;
  mret (mkFeedData
          (mkMetadata (toISOString now) (Z.of_nat (List.length allRepos))
             "1.0.0" "GitHub API" (queries cfg))
          allRepos).

End Functions.

End UpdateFeed.

(** ** A concrete host, for running the code on examples

    Dates in the ECMAScript date-time string format ([YYYY-MM-DD], optionally
    followed by [THH:mm:ss], [.sss] and a zone [Z] or [+HH:mm]/[-HH:mm]); a
    date without a time is UTC midnight.  Every other string is an invalid
    date here.  Case conversion is that of the ASCII letters. *)

Module Iso.

Definition digit (c : ascii) : option Z :=
  let n := Z.of_nat (nat_of_ascii c) in
  if (48 <=? n) && (n <=? 57) then Some (n - 48) else None.

(** Reads exactly [n] decimal digits. *)
Fixpoint digits (n : nat) (acc : Z) (s : string) : option (Z * string) :=
  match n with
  | O => Some (acc, s)
  | S n' =>
      match s with
      | String c s' => d ← digit c; digits n' (10 * acc + d) s'
      | EmptyString => None
      end
  end.

Definition expect (c : ascii) (s : string) : option string :=
  match s with
  | String c' s' => if Ascii.eqb c c' then Some s' else None
  | EmptyString => None
  end.

Definition is_leap (y : Z) : bool :=
  ((y mod 4 =? 0) && negb (y mod 100 =? 0)) || (y mod 400 =? 0).

Definition days_in_month (y m : Z) : Z :=
  if m =? 2 then (if is_leap y then 29 else 28)
  else if (m =? 4) || (m =? 6) || (m =? 9) || (m =? 11) then 30
  else 31.

(** Days from 1970-01-01 to the given civil date. *)
Definition days_from_civil (y m d : Z) : Z :=
  let y' := if m <=? 2 then y - 1 else y in
  let era := y' / 400 in
  let yoe := y' - era * 400 in
  let doy := (153 * (if 2 <? m then m - 3 else m + 9) + 2) / 5 + d - 1 in
  let doe := yoe * 365 + yoe / 4 - yoe / 100 + doy in
  era * 146097 + doe - 719468.

(** The zone designator, as the offset to subtract in minutes. *)
Definition zone (s : string) : option Z :=
  match s with
  | String c s' =>
      if Ascii.eqb c "Z" then (if String.eqb s' "" then Some 0 else None)
      else
        sign ← (if Ascii.eqb c "+" then Some 1
                 else if Ascii.eqb c "-" then Some (-1) else None);
        '(hh, s1) ← digits 2 0 s';
        s2 ← expect ":" s1;
        '(mm, s3) ← digits 2 0 s2;
        if String.eqb s3 "" && (hh <=? 23) && (mm <=? 59)
        then Some (sign * (hh * 60 + mm)) else None
  | EmptyString => None
  end.

Definition time_of_day (s : string) : option Z :=
  '(hh, s1) ← digits 2 0 s;
  s2 ← expect ":" s1;
  '(mm, s3) ← digits 2 0 s2;
  s4 ← expect ":" s3;
  '(ss, s5) ← digits 2 0 s4;
  '(ms, s6) ← (match expect "." s5 with
                | Some s' => digits 3 0 s'
                | None => Some (0, s5)
                end);
  off ← zone s6;
  if (hh <=? 23) && (mm <=? 59) && (ss <=? 59)
  then Some (((hh * 60 + mm - off) * 60 + ss) * 1000 + ms) else None.

Definition parse (s : string) : option Z :=
  '(y, s1) ← digits 4 0 s;
  s2 ← expect "-" s1;
  '(m, s3) ← digits 2 0 s2;
  s4 ← expect "-" s3;
  '(d, s5) ← digits 2 0 s4;
  if (1 <=? m) && (m <=? 12) && (1 <=? d) && (d <=? days_in_month y m) then
    let day := days_from_civil y m d * 86400000 in
    match s5 with
    | EmptyString => Some day
    | String c s6 =>
        if Ascii.eqb c "T" then t ← time_of_day s6; Some (day + t) else None
    end
  else None.

(** [n] as [width] decimal digits. *)
Fixpoint pad (width : nat) (n : Z) : string :=
  match width with
  | O => EmptyString
  | S w => pad w (n / 10) +:+ String (ascii_of_nat (Z.to_nat (48 + n mod 10))) EmptyString
  end.

(** The civil date of a day number, for years 0 to 9999. *)
Definition civil_from_days (z : Z) : Z * Z * Z :=
  let z := z + 719468 in
  let era := z / 146097 in
  let doe := z - era * 146097 in
  let yoe := (doe - doe / 1460 + doe / 36524 - doe / 146096) / 365 in
  let doy := doe - (365 * yoe + yoe / 4 - yoe / 100) in
  let mp := (5 * doy + 2) / 153 in
  let d := doy - (153 * mp + 2) / 5 + 1 in
  let m := if mp <? 10 then mp + 3 else mp - 9 in
  let y := yoe + era * 400 + (if m <=? 2 then 1 else 0) in
  (y, m, d).

Definition format (t : Z) : string :=
  let day := t / 86400000 in
  let ms := t mod 86400000 in
  let '(y, m, d) := civil_from_days day in
  pad 4 y +:+ "-" +:+ pad 2 m +:+ "-" +:+ pad 2 d +:+ "T"
  +:+ pad 2 (ms / 3600000) +:+ ":" +:+ pad 2 (ms / 60000 mod 60) +:+ ":"
  +:+ pad 2 (ms / 1000 mod 60) +:+ "." +:+ pad 3 (ms mod 1000) +:+ "Z".

Definition lower_ascii (c : ascii) : ascii :=
  let n := nat_of_ascii c in
  if (65 <=? n)%nat && (n <=? 90)%nat then ascii_of_nat (n + 32) else c.

Fixpoint lower (s : string) : string :=
  match s with
  | EmptyString => EmptyString
  | String c s' => String (lower_ascii c) (lower s')
  end.

Definition hex_digit (n : nat) : ascii :=
  ascii_of_nat (if (n <? 10)%nat then 48 + n else 55 + n).

Definition unreserved (c : ascii) : bool :=
  let n := nat_of_ascii c in
  ((65 <=? n) && (n <=? 90) || (97 <=? n) && (n <=? 122) || (48 <=? n) && (n <=? 57)
   || existsb (Nat.eqb n) [45; 95; 46; 33; 126; 42; 39; 40; 41])%nat.

(** Percent-encoding of every byte outside the unreserved set. *)
Fixpoint percent_encode (s : string) : string :=
  match s with
  | EmptyString => EmptyString
  | String c s' =>
      if unreserved c then String c (percent_encode s')
      else String "%" (String (hex_digit (nat_of_ascii c / 16))
                         (String (hex_digit (nat_of_ascii c mod 16)) (percent_encode s')))
  end.

#[export] Instance host : Host := {|
  getTime := parse;
  toISOString := format;
  toLowerCase := lower;
  encodeURIComponent := percent_encode
|}.

End Iso.

(** ** Sample records *)

Definition sample (i t lm : string) : Script :=
  mkScript i t "Sample" "" None "varies" lm lm "local" None None None None "".

Definition sample_raw (n : Z) (ts : list string) : RawRepo :=
  mkRawRepo n "lib" "octo/lib" "https://github.com/octo/lib"
    "https://github.com/octo/lib.git" None 3 1 None (Some ts)
    "2024-01-03T00:00:00Z" "2023-01-01T00:00:00Z" "2024-01-03T00:00:00Z"
    (Some (mkRawOwner "octo" "" "https://github.com/octo"))
    (Some "main") 0 None false false.

Definition sample_world : World :=
  mkWorld (Some ∅) false [] (fun n => 1705276800000 + Z.of_nat n) O
    (fun _ _ => NetworkFailure (Native "TypeError")) O [].

Definition sample_manager (l : list Script) : Manager.t :=
  Manager.mkManager (Manager.config (Manager.constructor
    (Manager.mkOptions None None None None None None None))) l None [].

Definition sample_manifest (l : list Script) : Build.Manifest :=
  Build.mkManifest "1.0.0" None None l (Some []).

Definition sample_feed (n : Z) (full updated : string) : FeedRepo.t :=
  FeedRepo.mk n "lib" full "https://github.com/octo/lib" "" 3 1 "AutoHotkey" []
    updated "2023-01-01T00:00:00Z" updated
    (mkRawOwner "octo" "" "https://github.com/octo") (Some "main") 0 None false false.

(** ** Vocabulary of the statements *)

(** A guard that never fires on a record against itself, and that keeps
    rejecting a candidate once the stored record has been overwritten by a
    newer one. *)
Definition settling (newer : Script -> Script -> bool) : Prop :=
  (forall s, newer s s = false) /\
  (forall s c c', newer s c = false -> newer c' c = true -> newer s c' = false).

(** [covered newer s l]: the first record of [l] with the id of [s] is one
    that [s] would not overwrite. *)
Definition covered (newer : Script -> Script -> bool) (s : Script)
    (l : list Script) : Prop :=
  exists c, List.find (same_id s) l = Some c /\ newer s c = false.

(** [sub] occurs in [s]. *)
Definition occurs (sub s : string) : Prop :=
  exists before after, s = before +:+ sub +:+ after.

(** The comparator [key b - key a] of both recency sorts. *)
Definition by_key_desc {A} (key : A -> option Z) (a b : A) : option Z :=
  match key b, key a with
  | Some kb, Some ka => Some (kb - ka)
  | _, _ => None
  end.

(** [a] may stand before [b]: its key is not smaller. *)
Definition not_older {A} (key : A -> option Z) (a b : A) : Prop :=
  exists ka kb, key a = Some ka /\ key b = Some kb /\ kb <= ka.

Definition has_key {A} (key : A -> option Z) (t : Z) (x : A) : bool :=
  bool_decide (key x = Some t).

(** What the exchange of one query contributes to the feed: the normalized
    items of a response with status 200 and a JSON body whose items all
    normalize; for any other exchange the query has failed. *)
Definition contribution (r : HttpResult) : option (list FeedRepo.t) :=
  match r with
  | NetworkFailure _ => None
  | Response status _ parsed =>
      if status =? 200 then
        match parsed with
        | Some items =>
            match map_throwing UpdateFeed.normalizeRepo (JS.or_empty items) with
            | Normal l => Some l
            | Throw _ => None
            end
        | None => None
        end
      else None
  end.

Definition is_error (e : LogEntry) : bool :=
  match level e with
  | LogError => true
  | _ => false
  end.

Definition failed (r : HttpResult) : bool :=
  match contribution r with
  | Some _ => false
  | None => true
  end.

(** The exchanges of a run of the query loop: the queries are sent one
    after the other, the first as request number [start] of the network. *)
Fixpoint exchanges `{Host} (net : nat -> string -> HttpResult) (start : nat)
    (queries : list string) : list HttpResult :=
  match queries with
  | [] => []
  | query :: rest =>
      net start (UpdateFeed.endpoint_of query 30) :: exchanges net (S start) rest
  end.

(** The array [getRecent] returns when [this.scripts] is the only array of
    the heap and holds [l]. *)
Definition getRecent_result `{Host} (limit : option Z) (l : list Script)
  : option (list Script) :=
  '(result, h') ← Manager.getRecent limit 0%nat {[ 0%nat := l ]};
  h' !! result.

(** * Properties *)

(** ** Strings: the order behind [>] is a strict total order *)

Lemma ascii_compare_N (a b : ascii) :
  Ascii.compare a b = N.compare (N_of_ascii a) (N_of_ascii b).
Proof. reflexivity. Qed.

Lemma string_compare_refl (s : string) : String.compare s s = Eq.
Proof.
  induction s as [|c s IH]; simpl; [reflexivity|].
  rewrite ascii_compare_N, N.compare_refl. exact IH.
Qed.

Lemma string_compare_lt_trans (a b c : string) :
  String.compare a b = Lt -> String.compare b c = Lt -> String.compare a c = Lt.
Proof.
  revert b c. induction a as [|x a IH]; intros [|y b] [|z c]; simpl; try congruence.
  destruct (Ascii.compare x y) eqn:Hxy; try discriminate.
  - apply Ascii.compare_eq_iff in Hxy. subst y.
    destruct (Ascii.compare x z); try congruence. intros. eapply IH; eassumption.
  - intros _. destruct (Ascii.compare y z) eqn:Hyz; try discriminate.
    + apply Ascii.compare_eq_iff in Hyz. subst z. now rewrite Hxy.
    + intros _. rewrite ascii_compare_N in *.
      rewrite N.compare_lt_iff in Hxy, Hyz.
      assert (Hxz : (N_of_ascii x < N_of_ascii z)%N) by lia.
      now rewrite (proj2 (N.compare_lt_iff _ _) Hxz).
Qed.

Lemma string_gt_irrefl (a : string) : JS.string_gt a a = false.
Proof. unfold JS.string_gt, String.ltb. now rewrite string_compare_refl. Qed.

Lemma string_gt_trans (a b c : string) :
  JS.string_gt a b = true -> JS.string_gt b c = true -> JS.string_gt a c = true.
Proof.
  unfold JS.string_gt, String.ltb. intros Hab Hbc.
  destruct (String.compare b a) eqn:E1; try discriminate.
  destruct (String.compare c b) eqn:E2; try discriminate.
  now rewrite (string_compare_lt_trans c b a E2 E1).
Qed.

Lemma num_gt_irrefl (a : option Z) : JS.num_gt a a = false.
Proof. destruct a; simpl; [apply Z.ltb_irrefl | reflexivity]. Qed.

Lemma num_gt_trans (a b c : option Z) :
  JS.num_gt a b = true -> JS.num_gt b c = true -> JS.num_gt a c = true.
Proof.
  destruct a, b, c; simpl; try discriminate.
  rewrite !Z.ltb_lt. lia.
Qed.

Lemma settling_of_order (key : Script -> option Z) :
  settling (fun s c => JS.num_gt (key s) (key c)).
Proof.
  split; [intros; apply num_gt_irrefl|].
  intros s c c' Hsc Hc'c. destruct (JS.num_gt (key s) (key c')) eqn:E; [|reflexivity].
  now rewrite (num_gt_trans _ _ _ E Hc'c) in Hsc.
Qed.

Lemma settling_of_string_order (key : Script -> string) :
  settling (fun s c => JS.string_gt (key s) (key c)).
Proof.
  split; [intros; apply string_gt_irrefl|].
  intros s c c' Hsc Hc'c. destruct (JS.string_gt (key s) (key c')) eqn:E; [|reflexivity].
  now rewrite (string_gt_trans _ _ _ E Hc'c) in Hsc.
Qed.

(** ** The merge loop *)

Lemma same_id_spec (script s : Script) :
  reflect (id s = id script) (same_id script s).
Proof. apply String.eqb_spec. Qed.

Section MergeFacts.

Variable newer : Script -> Script -> bool.

Lemma upsert_fresh script l :
  id script ∉ (id <$> l) -> upsert newer script l = l ++ [script].
Proof.
  induction l as [|s l IH]; simpl; intros Hn; [reflexivity|].
  destruct (same_id_spec script s) as [E|E].
  - exfalso. apply Hn. rewrite E. left.
  - rewrite IH; [reflexivity|]. intros Hin. apply Hn. now right.
Qed.

Lemma upsert_present script l :
  id script ∈ (id <$> l) ->
  exists i existing,
    JS.findIndex (same_id script) l = Z.of_nat i /\
    l !! i = Some existing /\
    id existing = id script /\
    upsert newer script l =
      if newer script existing then <[i := script]> l else l.
Proof.
  induction l as [|s l IH]; simpl; intros Hin.
  - inversion Hin.
  - destruct (same_id_spec script s) as [E|E].
    + exists O, s. repeat split; auto; now destruct (newer script s).
    + assert (Hin' : id script ∈ (id <$> l)).
      { apply elem_of_cons in Hin as [Hin|Hin]; [congruence | exact Hin]. }
      destruct (IH Hin') as (i & e & Hi & Hl & He & Hu).
      exists (S i), e. rewrite Hi, Hu.
      assert (Hlt : (Z.of_nat i <? 0) = false) by (apply Z.ltb_ge; lia).
      rewrite Hlt. repeat split; auto; [lia|]. now destruct (newer script e).
Qed.

Lemma upsert_ids script l :
  (id <$> upsert newer script l) =
    if decide (id script ∈ (id <$> l)) then (id <$> l) else (id <$> l) ++ [id script].
Proof.
  destruct (decide (id script ∈ (id <$> l))) as [Hin|Hn].
  - destruct (upsert_present script l Hin) as (i & e & _ & Hl & He & ->).
    destruct (newer script e); [|reflexivity].
    rewrite <- (list_insert_id l i e Hl) at 2.
    rewrite !list_fmap_insert. now rewrite He.
  - rewrite (upsert_fresh script l Hn). now rewrite fmap_app.
Qed.

(** On a state whose set holds the ids of the array, one iteration is
    [upsert], and the set keeps holding the ids. *)
Lemma merge_step_upsert script l :
  merge_step newer (l, list_to_set ((id <$> l))) script =
    (upsert newer script l, list_to_set ((id <$> upsert newer script l))).
Proof.
  unfold merge_step. rewrite upsert_ids.
  destruct (decide (id script ∈ (id <$> l))) as [Hin|Hn].
  - rewrite bool_decide_eq_true_2 by (now apply elem_of_list_to_set). simpl.
    destruct (upsert_present script l Hin) as (i & e & -> & Hl & He & ->).
    rewrite Nat2Z.id, Hl.
    assert (Hge : (0 <=? Z.of_nat i) = true) by (apply Z.leb_le; lia).
    rewrite Hge. simpl. now destruct (newer script e).
  - rewrite bool_decide_eq_false_2 by (now rewrite elem_of_list_to_set). simpl.
    rewrite (upsert_fresh script l Hn). f_equal.
    apply set_eq. intros x. rewrite !elem_of_union, !elem_of_list_to_set.
    rewrite elem_of_app, list_elem_of_singleton, elem_of_singleton. tauto.
Qed.

Lemma merge_fold newScripts l :
  fold_left (merge_step newer) newScripts (l, list_to_set ((id <$> l))) =
    (fold_left (fun acc s => upsert newer s acc) newScripts l,
     list_to_set ((id <$> fold_left (fun acc s => upsert newer s acc) newScripts l))).
Proof.
  revert l. induction newScripts as [|s rest IH]; intros l; cbn [fold_left]; [reflexivity|].
  rewrite merge_step_upsert. apply IH.
Qed.

Lemma merge_loop_upsert l newScripts :
  merge_loop newer l newScripts =
    fold_left (fun acc s => upsert newer s acc) newScripts l.
Proof. unfold merge_loop. now rewrite merge_fold. Qed.

Lemma merge_loop_snoc l newScripts script :
  merge_loop newer l (newScripts ++ [script]) =
    upsert newer script (merge_loop newer l newScripts).
Proof. rewrite !merge_loop_upsert. now rewrite fold_left_app. Qed.

Lemma upsert_NoDup script l :
  NoDup ((id <$> l)) -> NoDup ((id <$> upsert newer script l)).
Proof.
  intros Hnd. rewrite upsert_ids. case_decide; [exact Hnd|].
  apply NoDup_app. split; [exact Hnd|]. split.
  - intros x Hx Hx'. apply list_elem_of_singleton in Hx'. now subst.
  - apply NoDup_singleton.
Qed.

Lemma merge_loop_NoDup l newScripts :
  NoDup ((id <$> l)) -> NoDup ((id <$> merge_loop newer l newScripts)).
Proof.
  rewrite merge_loop_upsert. revert l.
  induction newScripts as [|s rest IH]; intros l Hnd; simpl; [exact Hnd|].
  apply IH. now apply upsert_NoDup.
Qed.

End MergeFacts.

(** *** Re-merging a batch *)

Section Settling.

Variable newer : Script -> Script -> bool.
Hypothesis newer_settling : settling newer.

Lemma covered_noop s l : covered newer s l -> upsert newer s l = l.
Proof.
  intros (c & Hf & Hc). induction l as [|x l IH]; simpl in *; [discriminate|].
  destruct (same_id s x).
  - injection Hf as ->. now rewrite Hc.
  - f_equal. now apply IH.
Qed.

Lemma covered_after_upsert s l : covered newer s (upsert newer s l).
Proof.
  destruct newer_settling as [Hirr _].
  assert (Hself : same_id s s = true) by apply String.eqb_refl.
  induction l as [|x l IH]; simpl.
  - exists s. simpl. now rewrite Hself.
  - destruct (same_id s x) eqn:E.
    + destruct (newer s x) eqn:N.
      * exists s. simpl. now rewrite Hself.
      * exists x. simpl. now rewrite E.
    + destruct IH as (c & Hf & Hc). exists c. simpl. now rewrite E.
Qed.

Lemma covered_preserved s s' l :
  covered newer s l -> covered newer s (upsert newer s' l).
Proof.
  destruct newer_settling as [_ Hkeep].
  intros (c & Hf & Hc). induction l as [|x l IH]; simpl in *; [discriminate|].
  destruct (same_id s x) eqn:E.
  - injection Hf as ->. destruct (same_id s' c) eqn:E'.
    + destruct (newer s' c) eqn:N.
      * exists s'. simpl. split; [|eauto].
        assert (Hs : same_id s s' = true).
        { destruct (same_id_spec s c), (same_id_spec s' c); try discriminate.
          unfold same_id. apply String.eqb_eq. congruence. }
        now rewrite Hs.
      * exists c. simpl. now rewrite E.
    + exists c. simpl. now rewrite E.
  - destruct (same_id s' x) eqn:E'.
    + destruct (newer s' x).
      * exists c. simpl. split; [|exact Hc].
        assert (Hs : same_id s s' = false).
        { destruct (same_id_spec s x), (same_id_spec s' x); try discriminate.
          unfold same_id. apply String.eqb_neq. congruence. }
        now rewrite Hs.
      * exists c. simpl. now rewrite E.
    + destruct (IH Hf) as (c' & Hf' & Hc'). exists c'. simpl. now rewrite E.
Qed.

Lemma covered_by_merge l batch :
  Forall (fun s => covered newer s (merge_loop newer l batch)) batch.
Proof.
  induction batch as [|s batch IH] using rev_ind; [constructor|].
  rewrite merge_loop_snoc. apply Forall_app. split.
  - eapply Forall_impl; [exact IH|]. intros a Ha. now apply covered_preserved.
  - constructor; [apply covered_after_upsert | constructor].
Qed.

Lemma merge_covered_noop l batch :
  Forall (fun s => covered newer s l) batch -> merge_loop newer l batch = l.
Proof.
  rewrite merge_loop_upsert.
  induction 1 as [|s batch Hs _ IH]; simpl; [reflexivity|].
  now rewrite (covered_noop s l Hs).
Qed.

Lemma merge_loop_idempotent l batch :
  merge_loop newer (merge_loop newer l batch) batch = merge_loop newer l batch.
Proof. apply merge_covered_noop, covered_by_merge. Qed.

End Settling.

(** ** The two [mergeScripts] *)

Lemma Manager_newer_settling : settling Manager.newer.
Proof. apply (settling_of_string_order lastModified). Qed.

Lemma Build_newer_settling `{Host} : settling Build.newer.
Proof. apply (settling_of_order (fun s => getTime (lastModified s))). Qed.

Lemma Manager_mergeScripts_run (batch : list Script) (s : Manager.St) :
  Manager.mergeScripts batch s =
    (Normal tt,
     Manager.mkSt
       (Manager.mkManager (Manager.config (Manager.this s))
          (merge_loop Manager.newer (Manager.scripts (Manager.this s)) batch)
          (Manager.lastUpdate (Manager.this s))
          (Manager.updateCallbacks (Manager.this s)))
       (Manager.world s)).
Proof. reflexivity. Qed.

(** The loop of [build.js] is the shared loop, with two counters on the side. *)
Lemma Build_merge_step_proj `{Host} (l : list Script) (ids : gset string)
    (a u : Z) (script : Script) :
  exists a' u',
    Build.merge_step (l, ids, a, u) script =
      ((merge_step Build.newer (l, ids) script).1,
       (merge_step Build.newer (l, ids) script).2, a', u').
Proof.
  unfold Build.merge_step, merge_step.
  destruct (negb (bool_decide (id script ∈ ids))); [eauto|].
  destruct (0 <=? JS.findIndex (same_id script) l) eqn:Hi; simpl.
  - destruct (l !! Z.to_nat (JS.findIndex (same_id script) l)) as [e|]; [|eauto].
    destruct (Build.newer script e); eauto.
  - destruct (l !! Z.to_nat (JS.findIndex (same_id script) l)); eauto.
Qed.

Lemma Build_merge_fold `{Host} (batch : list Script) (l : list Script)
    (ids : gset string) (a u : Z) :
  exists a' u',
    fold_left Build.merge_step batch (l, ids, a, u) =
      ((fold_left (merge_step Build.newer) batch (l, ids)).1,
       (fold_left (merge_step Build.newer) batch (l, ids)).2, a', u').
Proof.
  revert l ids a u. induction batch as [|s batch IH]; intros l ids a u.
  - simpl. eauto.
  - cbn [fold_left].
    destruct (Build_merge_step_proj l ids a u s) as (a1 & u1 & ->).
    destruct (merge_step Build.newer (l, ids) s) as [l1 ids1]. apply IH.
Qed.

Lemma Build_mergeScripts_run `{Host} (manifest : Build.Manifest)
    (batch : list Script) (w : World) :
  exists w',
    Build.mergeScripts manifest batch w =
      (Normal (Build.mkManifest (Build.version manifest) (Build.lastUpdated manifest)
                 (Build.totalScripts manifest)
                 (merge_loop Build.newer (Build.scripts manifest) batch)
                 (Build.categories manifest)), w')
    /\ localStorage w' = localStorage w.
Proof.
  unfold Build.mergeScripts, merge_loop.
  destruct (Build_merge_fold batch (Build.scripts manifest)
              (list_to_set (id <$> Build.scripts manifest)) 0 0) as (a & u & ->).
  eexists. split; reflexivity.
Qed.

(** What [mergeScripts] does with an incoming record whose id is already
    stored: the first stored record with that id is overwritten exactly when
    the guard holds, and nothing else changes. *)
Lemma merge_existing (newer : Script -> Script -> bool) (base : list Script)
    (script : Script) :
  id script ∈ (id <$> base) ->
  exists i existing,
    JS.findIndex (same_id script) base = Z.of_nat i /\
    base !! i = Some existing /\
    id existing = id script /\
    merge_loop newer base [script] =
      if newer script existing then <[i := script]> base else base.
Proof.
  intros Hin. rewrite merge_loop_upsert. simpl. now apply upsert_present.
Qed.

(** In [build.js] the guard compares the two time values: the stored
    record is overwritten only by a strictly later instant, and kept on an
    earlier or equal one. *)
Lemma Build_merge_existing `{Host} (manifest : Build.Manifest) (script : Script)
    (w : World) :
  id script ∈ (id <$> Build.scripts manifest) ->
  exists i existing m' w',
    JS.findIndex (same_id script) (Build.scripts manifest) = Z.of_nat i /\
    Build.scripts manifest !! i = Some existing /\
    Build.mergeScripts manifest [script] w = (Normal m', w') /\
    Build.scripts m' =
      match getTime (lastModified script), getTime (lastModified existing) with
      | Some t, Some t0 =>
          if t0 <? t then <[i := script]> (Build.scripts manifest)
          else Build.scripts manifest
      | _, _ => Build.scripts manifest
      end.
Proof.
  intros Hin.
  destruct (merge_existing Build.newer _ _ Hin) as (i & e & Hi & Hl & _ & Hm).
  destruct (Build_mergeScripts_run manifest [script] w) as (w' & Hrun & _).
  exists i, e. eexists. exists w'. repeat split; eauto. simpl. rewrite Hm.
  unfold Build.newer, JS.num_gt.
  destruct (getTime (lastModified script)), (getTime (lastModified e)); reflexivity.
Qed.

(** C1 (defect of [ScriptUpdateManager.mergeScripts]): the stored record
    and the incoming one denote the same instant (2024-01-15, midnight UTC),
    so the incoming record is not strictly newer; [build.js] keeps the
    stored record, but the manager compares the two [lastModified] as
    strings and overwrites it. *)
Theorem Manager_merge_compares_strings (cfg : Manager.Config)
    (stamp : option string) (callbacks : list Manager.Callback) (w : World) :
  let stored := sample "a" "old" "2024-01-15" in
  let incoming := sample "a" "new" "2024-01-15T00:00:00Z" in
  Iso.parse (lastModified incoming) = Some 1705276800000 /\
  Iso.parse (lastModified stored) = Some 1705276800000 /\
  (Build.mergeScripts (H := Iso.host) (sample_manifest [stored]) [incoming] w).1
    = Normal (sample_manifest [stored]) /\
  Manager.scripts (Manager.this
    (Manager.mergeScripts [incoming]
       (Manager.mkSt (Manager.mkManager cfg [stored] stamp callbacks) w)).2)
    = [incoming].
Proof. repeat split; vm_compute; reflexivity. Qed.

(** C2: merging a batch a second time changes nothing: the manager is left
    in the state the first merge produced, and [build.js] returns the very
    manifest it was given. *)
Theorem mergeScripts_idempotent `{Host} (s : Manager.St)
    (manifest : Build.Manifest) (batch : list Script) (w : World) :
  (let s1 := (Manager.mergeScripts batch s).2 in
   Manager.mergeScripts batch s1 = (Normal tt, s1)) /\
  (exists m1 w1 w2,
     Build.mergeScripts manifest batch w = (Normal m1, w1) /\
     Build.mergeScripts m1 batch w1 = (Normal m1, w2)).
Proof.
  split.
  - cbn zeta. rewrite (Manager_mergeScripts_run batch s). cbn [snd].
    rewrite Manager_mergeScripts_run.
    cbn [Manager.this Manager.world Manager.config Manager.scripts
         Manager.lastUpdate Manager.updateCallbacks].
    now rewrite (merge_loop_idempotent _ Manager_newer_settling).
  - destruct (Build_mergeScripts_run manifest batch w) as (w1 & H1 & _).
    eexists. exists w1.
    edestruct (Build_mergeScripts_run) as (w2 & H2 & _).
    exists w2. split; [exact H1|]. rewrite H2.
    cbn [Build.version Build.lastUpdated Build.totalScripts Build.scripts
         Build.categories].
    now rewrite (merge_loop_idempotent _ Build_newer_settling).
Qed.

(** C3: when no two records of the base share an id, no two records of the
    merged collection do, whatever the batch is. *)
Theorem mergeScripts_unique_ids `{Host} (s : Manager.St)
    (manifest : Build.Manifest) (batch : list Script) (w : World) :
  NoDup (id <$> Manager.scripts (Manager.this s)) ->
  NoDup (id <$> Build.scripts manifest) ->
  (exists s', Manager.mergeScripts batch s = (Normal tt, s') /\
              NoDup (id <$> Manager.scripts (Manager.this s'))) /\
  (exists m' w', Build.mergeScripts manifest batch w = (Normal m', w') /\
                 NoDup (id <$> Build.scripts m')).
Proof.
  intros Hs Hm. split.
  - rewrite Manager_mergeScripts_run. eexists. split; [reflexivity|].
    simpl. now apply merge_loop_NoDup.
  - destruct (Build_mergeScripts_run manifest batch w) as (w' & Hrun & _).
    eexists. exists w'. split; [exact Hrun|]. simpl. now apply merge_loop_NoDup.
Qed.

Lemma mergeScripts_unique_ids_witness :
  let base := [sample "a" "one" "2024-01-01"; sample "b" "two" "2024-01-02"] in
  let batch := [sample "b" "two'" "2024-01-03"; sample "c" "three" "2024-01-01";
                sample "c" "three'" "2024-01-02"] in
  NoDup (id <$> base) /\
  (exists s', Manager.mergeScripts batch
                (Manager.mkSt (sample_manager base) sample_world) = (Normal tt, s') /\
              NoDup (id <$> Manager.scripts (Manager.this s'))) /\
  (exists m' w', Build.mergeScripts (H := Iso.host) (sample_manifest base) batch
                   sample_world = (Normal m', w') /\
                 NoDup (id <$> Build.scripts m')).
Proof.
  assert (Hb : NoDup (id <$> [sample "a" "one" "2024-01-01";
                              sample "b" "two" "2024-01-02"])).
  { apply (bool_decide_unpack _). vm_compute. exact I. }
  split; [exact Hb|].
  apply (mergeScripts_unique_ids (H := Iso.host)); exact Hb.
Defined.

(** ** Normalization: the tags of a repository *)

Lemma slice_from_0 {A} (n : Z) (l : list A) :
  0 <= n -> JS.slice 0 n l = take (Z.to_nat n) l.
Proof.
  intros Hn. unfold JS.slice.
  assert (H0 : (0 <? 0) = false) by reflexivity.
  assert (Hn' : (n <? 0) = false) by (apply Z.ltb_ge; lia).
  rewrite H0, Hn'. cbv zeta.
  replace (Z.min 0 (Z.of_nat (List.length l))) with 0 by lia.
  rewrite Z.sub_0_r. change (Z.to_nat 0) with O. rewrite skipn_O.
  destruct (Z.le_gt_cases n (Z.of_nat (List.length l))) as [Hle|Hgt].
  - now rewrite Z.min_l by lia.
  - rewrite Z.min_r by lia. rewrite Nat2Z.id.
    rewrite firstn_all. symmetry. apply take_ge.
    change (length l) with (List.length l). lia.
Qed.

(** In [build.js] the tags are the two provenance tags followed by the
    topics in their order, cut after the eighth tag. *)
Lemma Build_tags (generateRepoCodeBlock : RawRepo -> string) (repo : RawRepo)
    (script : Script) :
  Build.toScript generateRepoCodeBlock repo = Normal script ->
  exists ts,
    tags script = Some ts /\
    ts = "github" :: "repository" :: take 6 (JS.or_empty (topics repo)) /\
    (List.length ts <= 8)%nat.
Proof.
  unfold Build.toScript. destruct (repo_owner repo); [|discriminate].
  intros [= <-]. cbn [tags]. rewrite slice_from_0 by lia.
  change (Z.to_nat 8) with 8%nat. cbn [take]. eexists. split; [reflexivity|].
  split; [reflexivity|]. cbn [List.length].
  pose proof (length_take (JS.or_empty (topics repo)) 6) as Hlen.
  change (@length) with (@List.length) in Hlen. lia.
Qed.

(** [parseGitHubRepos] keeps every topic. *)
Lemma Manager_tags (generateRepoCodeBlock : RawRepo -> string) (repo : RawRepo)
    (script : Script) :
  Manager.parseGitHubRepo generateRepoCodeBlock repo = Normal script ->
  tags script = Some ("github" :: "repository" :: JS.or_empty (topics repo)).
Proof.
  unfold Manager.parseGitHubRepo. destruct (repo_owner repo); [|discriminate].
  now intros [= <-].
Qed.

(** C6 (defect of [ScriptUpdateManager.parseGitHubRepos]): for a repository
    with seven topics [build.js] yields eight tags, the two provenance tags
    and the first six topics, while the manager yields all nine: it lacks
    the cut to eight tags. *)
Theorem Manager_tags_not_truncated (generateRepoCodeBlock : RawRepo -> string) :
  let repo := sample_raw 7 ["t1"; "t2"; "t3"; "t4"; "t5"; "t6"; "t7"] in
  (exists script,
     Build.toScript generateRepoCodeBlock repo = Normal script /\
     tags script = Some ["github"; "repository"; "t1"; "t2"; "t3"; "t4"; "t5"; "t6"]) /\
  (exists script,
     Manager.parseGitHubRepos generateRepoCodeBlock [repo] = Normal [script] /\
     tags script = Some ["github"; "repository"; "t1"; "t2"; "t3"; "t4"; "t5"; "t6"; "t7"] /\
     List.length <$> tags script = Some 9%nat).
Proof.
  split; eexists; repeat split; reflexivity.
Qed.

(** ** Deduplication of a fetched batch *)

Lemma dedup_filter_ids (seen : gset Z) (repos : list FeedRepo.t) (x : Z) :
  x ∈ (FeedRepo.id <$> UpdateFeed.dedup_filter seen repos) <->
  x ∈ (FeedRepo.id <$> repos) /\ x ∉ seen.
Proof.
  revert seen. induction repos as [|r rest IH]; intros seen; simpl.
  - rewrite elem_of_nil. tauto.
  - case_bool_decide as Hr; rewrite ?fmap_cons, ?elem_of_cons, IH.
    + split; [tauto|]. intros [[->|Hin] Hn]; [contradiction | tauto].
    + rewrite elem_of_union, elem_of_singleton. split.
      * intros [->|[Hin Hn]]; [tauto|]. tauto.
      * intros [[->|Hin] Hn]; [tauto|].
        destruct (decide (x = FeedRepo.id r)); tauto.
Qed.

Lemma dedup_filter_NoDup (seen : gset Z) (repos : list FeedRepo.t) :
  NoDup (FeedRepo.id <$> UpdateFeed.dedup_filter seen repos).
Proof.
  revert seen. induction repos as [|r rest IH]; intros seen; simpl.
  - constructor.
  - case_bool_decide; [apply IH|]. rewrite fmap_cons. constructor; [|apply IH].
    rewrite dedup_filter_ids. intros [_ Hn]. apply Hn.
    apply elem_of_union_l. now apply elem_of_singleton.
Qed.

Lemma dedup_filter_first (seen : gset Z) (repos : list FeedRepo.t) (r : FeedRepo.t) :
  r ∈ UpdateFeed.dedup_filter seen repos ->
  List.find (fun x => FeedRepo.id x =? FeedRepo.id r) repos = Some r.
Proof.
  revert seen. induction repos as [|x rest IH]; intros seen; simpl.
  - intros Hin. inversion Hin.
  - case_bool_decide as Hx.
    + intros Hin. assert (Hid : FeedRepo.id r ∉ seen).
      { eapply dedup_filter_ids. apply list_elem_of_fmap_2. exact Hin. }
      destruct (Z.eqb_spec (FeedRepo.id x) (FeedRepo.id r)) as [E|E].
      * rewrite E in Hx. contradiction.
      * eapply IH; eassumption.
    + rewrite elem_of_cons. intros [->|Hin].
      * now rewrite Z.eqb_refl.
      * assert (Hid : FeedRepo.id r ∉ ({[FeedRepo.id x]} ∪ seen : gset Z)).
        { eapply dedup_filter_ids. apply list_elem_of_fmap_2. exact Hin. }
        destruct (Z.eqb_spec (FeedRepo.id x) (FeedRepo.id r)) as [E|E].
        -- exfalso. apply Hid. rewrite E. set_solver.
        -- eapply IH; eassumption.
Qed.

(** C5, as the code has it: the deduplicated batch holds exactly one record
    for every id of the batch, and that record is the first one of the batch
    with this id. *)
Theorem deduplicateRepos_keeps_first (repos : list FeedRepo.t) :
  NoDup (FeedRepo.id <$> UpdateFeed.deduplicateRepos repos) /\
  (forall x, x ∈ (FeedRepo.id <$> UpdateFeed.deduplicateRepos repos) <->
             x ∈ (FeedRepo.id <$> repos)) /\
  (forall r, r ∈ UpdateFeed.deduplicateRepos repos ->
             List.find (fun x => FeedRepo.id x =? FeedRepo.id r) repos = Some r).
Proof.
  unfold UpdateFeed.deduplicateRepos. split; [apply dedup_filter_NoDup|]. split.
  - intros x. rewrite dedup_filter_ids. split; [tauto|].
    intros Hx. split; [exact Hx | apply not_elem_of_empty].
  - intros r. apply dedup_filter_first.
Qed.

(** C5 fails as stated: of two records with the same id the older one is
    kept when it comes first in the batch. *)
Lemma deduplicateRepos_not_newest :
  ~ (forall repos r r',
       r ∈ UpdateFeed.deduplicateRepos repos -> r' ∈ repos ->
       FeedRepo.id r' = FeedRepo.id r ->
       JS.num_gt (Iso.parse (FeedRepo.updated_at r'))
                 (Iso.parse (FeedRepo.updated_at r)) = false).
Proof.
  intros Hall.
  specialize (Hall [sample_feed 42 "octo/lib" "2024-01-01T00:00:00Z";
                    sample_feed 42 "octo/lib" "2024-01-02T00:00:00Z"]
                   (sample_feed 42 "octo/lib" "2024-01-01T00:00:00Z")
                   (sample_feed 42 "octo/lib" "2024-01-02T00:00:00Z")).
  assert (Hfalse : true = false); [|discriminate].
  apply Hall; [| |reflexivity].
  - vm_compute. left.
  - right. left.
Qed.

(** ** Search *)

Lemma prefix_app (s1 s2 : string) :
  String.prefix s1 s2 = true <-> exists rest, s2 = s1 +:+ rest.
Proof.
  revert s2. induction s1 as [|a s1 IH]; intros s2.
  - split; [intros _; now exists s2 | intros _; now destruct s2].
  - destruct s2 as [|b s2]; simpl.
    + split; [discriminate | intros [rest Hr]; discriminate].
    + destruct (ascii_dec a b) as [->|Hne].
      * rewrite IH. split; intros [rest Hr]; exists rest.
        -- now rewrite Hr.
        -- now injection Hr.
      * split; [discriminate | intros [rest Hr]].
        injection Hr as Hab _. now destruct Hne.
Qed.

Lemma includes_occurs (s sub : string) :
  JS.includes s sub = true <-> occurs sub s.
Proof.
  unfold occurs. induction s as [|c s IH].
  - cbn [JS.includes]. rewrite orb_false_r, prefix_app. split.
    + intros [rest Hr]. now exists "", rest.
    + intros (before & after & Hs). destruct before; simpl in Hs; [eauto | discriminate].
  - cbn [JS.includes]. rewrite orb_true_iff, prefix_app, IH. split.
    + intros [[rest Hr] | (before & after & Hs)].
      * now exists "", rest.
      * exists (String c before), after. simpl. now rewrite Hs.
    + intros (before & after & Hs). destruct before as [|c' before]; simpl in Hs.
      * left. eauto.
      * right. injection Hs as _ Hs. eauto.
Qed.

(** C8: two queries with the same lower-case form select the same records,
    namely those whose lower-cased title, description or one of whose
    lower-cased tags contains the lower-cased query. *)
Theorem search_case_insensitive `{Host} (m : Manager.t) (q q' : string) :
  toLowerCase q = toLowerCase q' ->
  Manager.search q m = Manager.search q' m /\
  (forall s,
     In s (Manager.search q m) <->
     In s (Manager.scripts m) /\
     (occurs (toLowerCase q) (toLowerCase (title s)) \/
      occurs (toLowerCase q) (toLowerCase (description s)) \/
      exists ts t, tags s = Some ts /\ In t ts /\
                   occurs (toLowerCase q) (toLowerCase t))).
Proof.
  intros Hq. split.
  - unfold Manager.search. now rewrite Hq.
  - intros s. unfold Manager.search. rewrite filter_In.
    rewrite !orb_true_iff, !includes_occurs.
    split; intros [Hin Hm]; (split; [exact Hin|]).
    + destruct Hm as [[Ht|Hd]|Htags]; [tauto | tauto |].
      right; right. destruct (tags s) as [ts|]; [|discriminate].
      apply existsb_exists in Htags as (t & Ht & Hocc).
      exists ts, t. now rewrite <- includes_occurs.
    + destruct Hm as [Ht|[Hd|(ts & t & Hts & Ht & Hocc)]]; [tauto | tauto |].
      right. rewrite Hts. apply existsb_exists. exists t.
      now rewrite includes_occurs.
Qed.

Lemma search_case_insensitive_witness :
  let m := sample_manager [sample "a" "AHK basics" "2024-01-01";
                           sample "b" "Window tools" "2024-01-02";
                           sample "c" "Hotkeys for ahk" "2024-01-03"] in
  Iso.lower "AHK" = Iso.lower "ahk" /\
  Manager.search (H := Iso.host) "AHK" m = Manager.search (H := Iso.host) "ahk" m /\
  Manager.search (H := Iso.host) "AHK" m =
    [sample "a" "AHK basics" "2024-01-01"; sample "c" "Hotkeys for ahk" "2024-01-03"].
Proof.
  split; [reflexivity|]. split; [|reflexivity].
  apply (search_case_insensitive (H := Iso.host)). reflexivity.
Defined.

(** ** Sorting by recency *)

Section SortFacts.

Context {A : Type}.
Variable key : A -> option Z.

Lemma insert_sorted_perm (cmp : A -> A -> option Z) x l :
  JS.insert_sorted cmp x l ≡ₚ x :: l.
Proof.
  induction l as [|y l IH]; simpl; [reflexivity|].
  destruct (JS.sortCompare cmp x y <=? 0); [reflexivity|].
  rewrite IH. apply perm_swap.
Qed.

Lemma sort_perm (cmp : A -> A -> option Z) l : JS.sort cmp l ≡ₚ l.
Proof.
  induction l as [|x l IH]; simpl; [reflexivity|].
  now rewrite insert_sorted_perm, IH.
Qed.

Lemma compare_by_key x y :
  is_Some (key x) -> is_Some (key y) ->
  if JS.sortCompare (by_key_desc key) x y <=? 0
  then not_older key x y else not_older key y x.
Proof.
  intros [kx Hx] [ky Hy]. unfold JS.sortCompare, by_key_desc. rewrite Hx, Hy.
  destruct (Z.leb_spec (ky - kx) 0).
  - exists kx, ky. repeat split; auto; lia.
  - exists ky, kx. repeat split; auto; lia.
Qed.

Lemma not_older_trans a b c :
  not_older key a b -> not_older key b c -> not_older key a c.
Proof.
  intros (ka & kb & Ha & Hb & Hab) (kb' & kc & Hb' & Hc & Hbc).
  exists ka, kc. repeat split; auto.
  rewrite Hb in Hb'. injection Hb' as <-. lia.
Qed.

Lemma insert_sorted_sorted x l :
  is_Some (key x) -> Forall (fun y => is_Some (key y)) l ->
  StronglySorted (not_older key) l ->
  StronglySorted (not_older key) (JS.insert_sorted (by_key_desc key) x l).
Proof.
  intros Hx Hl Hs. induction Hs as [|y l Hs IH Hy]; simpl.
  - repeat constructor.
  - apply Forall_cons in Hl as [Hvy Hl].
    pose proof (compare_by_key x y Hx Hvy) as Hc.
    destruct (JS.sortCompare (by_key_desc key) x y <=? 0).
    + constructor; [now constructor|]. constructor; [exact Hc|].
      eapply Forall_impl; [exact Hy|]. intros z Hz. eapply not_older_trans; eauto.
    + constructor; [now apply IH|].
      rewrite insert_sorted_perm. now constructor.
Qed.

Lemma sort_sorted l :
  Forall (fun y => is_Some (key y)) l ->
  StronglySorted (not_older key) (JS.sort (by_key_desc key) l).
Proof.
  induction 1 as [|x l Hx Hl IH]; simpl; [constructor|].
  apply insert_sorted_sorted; auto. now rewrite sort_perm.
Qed.

(** The records with a given key keep their relative order. *)
Lemma insert_sorted_stable t x l :
  List.filter (has_key key t) (JS.insert_sorted (by_key_desc key) x l) =
  List.filter (has_key key t) (x :: l).
Proof.
  induction l as [|y l IH]; [reflexivity|]. cbn [JS.insert_sorted].
  destruct (JS.sortCompare (by_key_desc key) x y <=? 0) eqn:Hc; [reflexivity|].
  cbn [List.filter] in *. rewrite IH.
  destruct (has_key key t x) eqn:Px, (has_key key t y) eqn:Py; try reflexivity.
  exfalso. unfold has_key in Px, Py.
  apply bool_decide_eq_true_1 in Px, Py.
  unfold JS.sortCompare, by_key_desc in Hc. rewrite Px, Py in Hc.
  rewrite Z.sub_diag in Hc. discriminate.
Qed.

Lemma sort_stable t l :
  List.filter (has_key key t) (JS.sort (by_key_desc key) l) =
  List.filter (has_key key t) l.
Proof.
  induction l as [|x l IH]; [reflexivity|]. cbn [JS.sort fold_right].
  rewrite insert_sorted_stable. cbn [List.filter]. fold (JS.sort (by_key_desc key) l).
  now rewrite IH.
Qed.

End SortFacts.

(** C7, as the code has it: on a collection of records whose dates are all
    valid and for a limit that is not negative (10 when omitted),
    [getRecent] returns a new array holding the first [limit] records of the
    collection sorted by [lastModified], latest first and records of equal
    date in their original order; every array that existed before the call,
    [this.scripts] among them, is left as it was. *)
Theorem getRecent_sorted_prefix `{Host} (limit : option Z) (scripts_ref : JS.Ref)
    (h : gmap JS.Ref (list Script)) (l : list Script) :
  let key := fun s => getTime (lastModified s) in
  h !! scripts_ref = Some l ->
  Forall (fun s => is_Some (key s)) l ->
  0 <= default 10 limit ->
  exists result h' sorted,
    Manager.getRecent limit scripts_ref h = Some (result, h') /\
    h' !! result = Some (take (Z.to_nat (default 10 limit)) sorted) /\
    sorted ≡ₚ l /\
    StronglySorted (not_older key) sorted /\
    (forall t, List.filter (has_key key t) sorted = List.filter (has_key key t) l) /\
    (result ∉ dom h) /\
    (forall r, r ∈ dom h -> h' !! r = h !! r).
Proof.
  intros key Hl Hvalid Hlimit.
  set (copy := fresh (dom h)).
  set (h2 := <[copy := JS.sort Manager.byRecency l]> (<[copy := l]> h)).
  assert (Hcopy : copy ∉ dom h) by apply is_fresh.
  assert (Hres : fresh (dom h2) ∉ dom h2) by apply is_fresh.
  exists (fresh (dom h2)),
         (<[fresh (dom h2) :=
              JS.slice 0 (default 10 limit) (JS.sort Manager.byRecency l)]> h2),
         (JS.sort Manager.byRecency l).
  assert (Hdom : dom h ⊆ dom h2).
  { unfold h2. rewrite !dom_insert. set_solver. }
  split; [|split; [|split; [|split; [|split; [|split]]]]].
  - unfold Manager.getRecent, JS.spread_at, JS.sort_at, JS.slice_at, JS.alloc.
    rewrite Hl. cbn [mbind option_bind]. fold copy.
    rewrite lookup_insert_eq. cbn [mbind option_bind].
    rewrite lookup_insert_eq. reflexivity.
  - rewrite lookup_insert_eq. now rewrite slice_from_0.
  - apply sort_perm.
  - apply (sort_sorted key). exact Hvalid.
  - intros t. apply (sort_stable key).
  - intros Hin. apply Hres. now apply Hdom.
  - intros r Hr.
    assert (Hr1 : fresh (dom h2) ≠ r) by (intros <-; apply Hres; now apply Hdom).
    assert (Hr2 : copy ≠ r) by (intros <-; now apply Hcopy).
    rewrite lookup_insert_ne by exact Hr1.
    unfold h2. now rewrite !lookup_insert_ne by exact Hr2.
Qed.

Lemma getRecent_sorted_prefix_witness :
  let l := [sample "a" "first" "2024-01-01"; sample "b" "second" "2024-01-03";
            sample "c" "third" "2024-01-03"] in
  let h : gmap nat (list Script) := {[ 5%nat := l ]} in
  let key := fun s => Iso.parse (lastModified s) in
  h !! 5%nat = Some l /\
  Forall (fun s => is_Some (key s)) l /\
  0 <= 2 /\
  exists result h' sorted,
    Manager.getRecent (H := Iso.host) (Some 2) 5%nat h = Some (result, h') /\
    h' !! result = Some (take 2 sorted) /\
    sorted ≡ₚ l /\
    StronglySorted (not_older key) sorted /\
    (forall t, List.filter (has_key key t) sorted = List.filter (has_key key t) l) /\
    (result ∉ dom h) /\
    (forall r, r ∈ dom h -> h' !! r = h !! r).
Proof.
  intros l h key.
  assert (Hl : h !! 5%nat = Some l) by reflexivity.
  assert (Hv : Forall (fun s => is_Some (key s)) l).
  { repeat constructor; vm_compute; eauto. }
  repeat split; [exact Hv | lia |].
  apply (getRecent_sorted_prefix (H := Iso.host) (Some 2) 5%nat h l Hl Hv).
  simpl. lia.
Defined.

(** C7 fails as stated, for every collection and every limit.  With the
    limit -1, [slice(0, -1)] drops the last record of the sorted copy and
    two records come back, not none.  With a record whose [lastModified] is
    not a date the comparator yields [NaN] against it and the copy stays in
    its original order: the record of 2024-01-03 comes back after the one of
    2024-01-01, so the result is not sorted even among the valid dates. *)
Lemma getRecent_not_every_input :
  let a := sample "a" "first" "2024-01-01" in
  let b := sample "b" "second" "2024-01-03" in
  let c := sample "c" "third" "2024-01-03" in
  let x := sample "x" "broken" "not a date" in
  let key := fun s => Iso.parse (lastModified s) in
  (getRecent_result (H := Iso.host) (Some (-1)) [a; b; c] = Some [b; c] /\
   ~ exists sorted,
       getRecent_result (H := Iso.host) (Some (-1)) [a; b; c]
         = Some (take (Z.to_nat (-1)) sorted)) /\
  (getRecent_result (H := Iso.host) (Some 3) [a; x; c] = Some [a; x; c] /\
   ~ exists sorted,
       getRecent_result (H := Iso.host) (Some 3) [a; x; c] = Some (take 3 sorted) /\
       sorted ≡ₚ [a; x; c] /\
       forall (i j : nat) ra rb ka kb,
         (i < j)%nat -> sorted !! i = Some ra -> sorted !! j = Some rb ->
         key ra = Some ka -> key rb = Some kb -> kb <= ka).
Proof.
  intros a b c x key.
  assert (R1 : getRecent_result (H := Iso.host) (Some (-1)) [a; b; c] = Some [b; c])
    by (vm_compute; reflexivity).
  assert (R2 : getRecent_result (H := Iso.host) (Some 3) [a; x; c] = Some [a; x; c])
    by (vm_compute; reflexivity).
  split; split; try assumption.
  - intros (sorted & Hs). rewrite R1 in Hs. discriminate.
  - intros (sorted & Hs & Hperm & Hord). rewrite R2 in Hs.
    injection Hs as Hs. apply Permutation_length in Hperm.
    rewrite take_ge in Hs by (rewrite Hperm; cbn; lia). subst sorted.
    specialize (Hord 0%nat 2%nat a c 1704067200000 1704240000000).
    assert (Hle : 1704240000000 <= 1704067200000); [|lia].
    apply Hord; [lia | reflexivity | reflexivity | reflexivity | reflexivity].
Qed.

(** The tie of the second and third record: both come back, in their
    original order and ahead of the first, and [this.scripts] still holds
    the three records in the order they had. *)
Example getRecent_tie :
  let a := sample "a" "first" "2024-01-01" in
  let b := sample "b" "second" "2024-01-03" in
  let c := sample "c" "third" "2024-01-03" in
  exists result h',
    Manager.getRecent (H := Iso.host) (Some 2) 5%nat {[ 5%nat := [a; b; c] ]}
      = Some (result, h') /\
    h' !! result = Some [b; c] /\
    h' !! 5%nat = Some [a; b; c].
Proof. do 2 eexists. repeat split; vm_compute; reflexivity. Qed.

(** ** The query loop of [updateFeed] *)

(** One query: its exchange is consumed; a successful one appends its
    records, a failed one leaves the array as it is and writes one line with
    [console.error]. *)
Lemma fetch_query_run `{Host} (allRepos : list FeedRepo.t) (query : string)
    (w : World) :
  let r := network w (requests w) (UpdateFeed.endpoint_of query 30) in
  exists w' entries,
    UpdateFeed.fetch_query allRepos query w =
      (Normal (allRepos ++ default [] (contribution r)), w') /\
    requests w' = S (requests w) /\
    network w' = network w /\
    console w' = console w ++ entries /\
    List.length (List.filter is_error entries) =
      match contribution r with Some _ => 0%nat | None => 1%nat end.
Proof.
  destruct w as [ls sf con clk tk net rq ntf]. cbn [network requests console].
  unfold UpdateFeed.fetch_query, try_catch, UpdateFeed.searchRepos,
    UpdateFeed.fetchFromGitHub, contribution.
  unfold mbind, M_bind, mret, M_ret, Console.log, Console.error, Console.write,
    modify, http_get, throw, lift.
  cbn [network requests console localStorage storageFull clock ticks notified].
  destruct (net rq (UpdateFeed.endpoint_of query 30)) as [e|status data parsed];
    [|destruct (status =? 200);
      [destruct parsed as [items|];
       [destruct (map_throwing UpdateFeed.normalizeRepo (JS.or_empty items)) as [l|e]|]
      |destruct (status =? 403)]];
    do 2 eexists;
    (split; [cbn [default from_option]; rewrite ?app_nil_r; reflexivity|]);
    (split; [reflexivity|]); (split; [reflexivity|]);
    (split; [cbn [console]; rewrite <- ?app_assoc; reflexivity | reflexivity]).
Qed.

(** C4: the loop sends every query, never throws, and returns the records
    of the successful queries, in order; each failed query (rate limit,
    other status, network error, unreadable body) adds nothing to the
    result and one [console.error] line to the log. *)
Theorem fetch_loop_fail_soft `{Host} (queries : list string)
    (allRepos : list FeedRepo.t) (w : World) :
  let exs := exchanges (network w) (requests w) queries in
  exists w' entries,
    UpdateFeed.fetch_loop queries allRepos w =
      (Normal (allRepos ++ mjoin (omap contribution exs)), w') /\
    requests w' = (requests w + List.length queries)%nat /\
    console w' = console w ++ entries /\
    List.length (List.filter is_error entries) =
      List.length (List.filter failed exs).
Proof.
  revert allRepos w. induction queries as [|query rest IH]; intros allRepos w.
  - exists w, []. cbn. rewrite !app_nil_r, Nat.add_0_r. repeat split.
  - destruct (fetch_query_run allRepos query w) as (w1 & e1 & Hrun & Hrq & Hnet & Hcon & Herr).
    destruct (IH (allRepos ++ default [] (contribution
                    (network w (requests w) (UpdateFeed.endpoint_of query 30)))) w1)
      as (w' & e2 & Hloop & Hrq' & Hcon' & Herr').
    exists w', (e1 ++ e2). cbn [UpdateFeed.fetch_loop exchanges].
    unfold mbind, M_bind. rewrite Hrun, Hloop, Hrq, Hnet.
    cbn [omap list_omap List.filter]. unfold failed at 1.
    destruct (contribution (network w (requests w) (UpdateFeed.endpoint_of query 30)))
      as [l|]; cbn [default from_option mjoin list_join];
      rewrite ?app_nil_r, <- ?app_assoc.
    + repeat split.
      * rewrite Hrq', Hrq. cbn [List.length]. lia.
      * rewrite Hcon', Hcon. now rewrite app_assoc.
      * rewrite List.filter_app, length_app, Herr, Herr'. now rewrite Hrq, Hnet.
    + repeat split.
      * rewrite Hrq', Hrq. cbn [List.length]. lia.
      * rewrite Hcon', Hcon. now rewrite app_assoc.
      * rewrite List.filter_app, length_app, Herr, Herr'. rewrite Hrq, Hnet.
        reflexivity.
Qed.

(** The second of three queries hits the rate limit: the feed holds the
    records of the first and the third query. *)
Example fetch_loop_rate_limited :
  let r1 := sample_raw 1 ["ahk"] in
  let r3 := sample_raw 3 [] in
  let net := fun (n : nat) (_ : string) =>
    match n with
    | 0%nat => Response 200 "" (Some (Some [r1]))
    | 1%nat => Response 403 "" None
    | _ => Response 200 "" (Some (Some [r3]))
    end in
  let w := mkWorld None false [] (fun _ => 0) 0 net 0 [] in
  exists n1 n3 w',
    UpdateFeed.normalizeRepo r1 = Normal n1 /\
    UpdateFeed.normalizeRepo r3 = Normal n3 /\
    UpdateFeed.fetch_loop (H := Iso.host) ["q1"; "q2"; "q3"] [] w
      = (Normal [n1; n3], w') /\
    List.length (List.filter is_error (console w')) = 1%nat.
Proof. do 3 eexists. repeat split; reflexivity. Qed.

(** ** The cache of the manager *)

(** [loadFromCache] never throws and never writes to [localStorage]. *)
Lemma loadFromCache_reads_only (s : Manager.St) :
  exists b s',
    Manager.loadFromCache s = (Normal b, s') /\
    localStorage (Manager.world s') = localStorage (Manager.world s) /\
    (b = false -> Manager.this s' = Manager.this s).
Proof.
  destruct s as [[cfg scr lu cbs] [ls sf con clk tk net rq ntf]].
  unfold Manager.loadFromCache, mbind, M_bind, get. cbn [Manager.world localStorage].
  destruct ls as [store|]; [|do 2 eexists; repeat split; reflexivity].
  unfold try_catch. cbn [Manager.this Manager.config].
  destruct (store !! Manager.cacheKey cfg) as [[txt|cached ts]|];
    [destruct txt | |]; try (do 2 eexists; repeat split; reflexivity).
  unfold mbind, M_bind, Manager.in_world, zoom, Date_now.
  cbn [Manager.world Manager.this clock ticks].
  destruct (JS.num_lt ((fun ts0 => clk tk - ts0) <$> ts) (Some (Manager.cacheTTL cfg)));
    [|do 2 eexists; repeat split; reflexivity].
  destruct cached as [l|]; do 2 eexists; repeat split; try reflexivity.
  discriminate.
Qed.

(** C9: with a cache entry of age [now - timestamp], [loadFromCache] merges
    the cached records and answers [true] when the age is below the TTL;
    from the TTL on it answers [false] and leaves the collection and the
    whole manager as they were.  The stored entry stays in either case. *)
Theorem loadFromCache_ttl (s : Manager.St) (store : gmap string Stored)
    (cached : list Script) (timestamp : Z) :
  let cfg := Manager.config (Manager.this s) in
  let age := clock (Manager.world s) (ticks (Manager.world s)) - timestamp in
  localStorage (Manager.world s) = Some store ->
  store !! Manager.cacheKey cfg = Some (CacheJson (Some cached) (Some timestamp)) ->
  exists s',
    localStorage (Manager.world s') = Some store /\
    if age <? Manager.cacheTTL cfg then
      Manager.loadFromCache s = (Normal true, s') /\
      Manager.scripts (Manager.this s') =
        merge_loop Manager.newer (Manager.scripts (Manager.this s)) cached
    else
      Manager.loadFromCache s = (Normal false, s') /\
      Manager.this s' = Manager.this s.
Proof.
  destruct s as [[cfg scr lu cbs] [ls sf con clk tk net rq ntf]].
  cbn [Manager.this Manager.world Manager.config Manager.scripts localStorage clock ticks].
  intros -> Hentry.
  unfold Manager.loadFromCache, mbind, M_bind, get, try_catch.
  cbn [Manager.world Manager.this Manager.config localStorage]. rewrite Hentry.
  unfold Manager.in_world, zoom, Date_now. cbn [Manager.world Manager.this clock ticks].
  unfold JS.num_lt, JS.num_gt. cbn [fmap option_fmap option_map].
  destruct (clk tk - timestamp <? Manager.cacheTTL cfg);
    eexists; repeat split; reflexivity.
Qed.

Lemma loadFromCache_ttl_witness :
  let stale := CacheJson (Some [sample "b" "cached" "2024-01-02"]) (Some 1705276500000) in
  let store : gmap string Stored := {[ "ahk_scripts_cache" := stale ]} in
  let w := mkWorld (Some store) false [] (fun _ => 1705276800000) 0
             (fun _ _ => NetworkFailure (Native "TypeError")) 0 [] in
  let s := Manager.mkSt (sample_manager [sample "a" "kept" "2024-01-01"]) w in
  localStorage w = Some store /\
  store !! "ahk_scripts_cache" = Some stale /\
  exists s',
    localStorage (Manager.world s') = Some store /\
    Manager.loadFromCache s = (Normal false, s') /\
    Manager.this s' = Manager.this s.
Proof.
  intros stale store w s.
  assert (H1 : localStorage (Manager.world s) = Some store) by reflexivity.
  assert (H2 : store !! Manager.cacheKey (Manager.config (Manager.this s))
               = Some (CacheJson (Some [sample "b" "cached" "2024-01-02"])
                         (Some 1705276500000))) by reflexivity.
  split; [reflexivity|]. split; [reflexivity|].
  exact (loadFromCache_ttl s store _ _ H1 H2).
Defined.

(** ** A full update *)





(** * Further properties of the code *)

(** ** Merging: what stays, what is added *)

Lemma merge_loop_ids (newer : Script -> Script -> bool) (base batch : list Script) :
  exists extra,
    id <$> merge_loop newer base batch = (id <$> base) ++ extra /\
    Forall (fun x => x ∈ (id <$> batch)) extra.
Proof.
  induction batch as [|s batch IH] using rev_ind.
  - exists []. rewrite app_nil_r. split; [reflexivity | constructor].
  - destruct IH as (extra & Hids & Hextra).
    rewrite merge_loop_snoc, upsert_ids, Hids.
    assert (Hweak : Forall (fun x => x ∈ (id <$> batch ++ [s])) extra).
    { eapply Forall_impl; [exact Hextra|]. intros x Hx.
      rewrite fmap_app. apply elem_of_app. now left. }
    case_decide.
    + exists extra. split; [reflexivity | exact Hweak].
    + exists (extra ++ [id s]). rewrite app_assoc. split; [reflexivity|].
      apply Forall_app. split; [exact Hweak|]. constructor; [|constructor].
      rewrite fmap_app. apply elem_of_app. right. apply list_elem_of_singleton.
      reflexivity.
Qed.

(** Neither [mergeScripts] deletes or moves a record: the ids of the
    collection before the merge are the first ids after it, in the same
    order, and the ids that follow come from the batch. *)
Theorem mergeScripts_keeps_positions `{Host} (s : Manager.St)
    (manifest : Build.Manifest) (batch : list Script) (w : World) :
  (exists s' extra,
     Manager.mergeScripts batch s = (Normal tt, s') /\
     id <$> Manager.scripts (Manager.this s') =
       (id <$> Manager.scripts (Manager.this s)) ++ extra /\
     Forall (fun x => x ∈ (id <$> batch)) extra) /\
  (exists m' w' extra,
     Build.mergeScripts manifest batch w = (Normal m', w') /\
     id <$> Build.scripts m' = (id <$> Build.scripts manifest) ++ extra /\
     Forall (fun x => x ∈ (id <$> batch)) extra).
Proof.
  split.
  - destruct (merge_loop_ids Manager.newer (Manager.scripts (Manager.this s)) batch)
      as (extra & Hids & Hextra).
    eexists. exists extra. rewrite Manager_mergeScripts_run.
    split; [reflexivity|]. split; [exact Hids | exact Hextra].
  - destruct (merge_loop_ids Build.newer (Build.scripts manifest) batch)
      as (extra & Hids & Hextra).
    destruct (Build_mergeScripts_run manifest batch w) as (w' & Hrun & _).
    eexists. exists w', extra. split; [exact Hrun|].
    split; [exact Hids | exact Hextra].
Qed.

Lemma merge_loop_into_empty (newer : Script -> Script -> bool) (batch : list Script) :
  NoDup (id <$> batch) -> merge_loop newer [] batch = batch.
Proof.
  induction batch as [|s batch IH] using rev_ind; intros Hnd; [reflexivity|].
  rewrite fmap_app in Hnd. apply NoDup_app in Hnd as (Hb & Hfresh & _).
  rewrite merge_loop_snoc, (IH Hb). apply upsert_fresh.
  intros Hin. apply (Hfresh _ Hin). apply list_elem_of_singleton. reflexivity.
Qed.

(** Merged into an empty collection, a batch without repeated ids becomes
    the collection, record for record and in its order. *)
Theorem mergeScripts_into_empty `{Host} (cfg : Manager.Config)
    (stamp : option string) (callbacks : list Manager.Callback)
    (manifest : Build.Manifest) (batch : list Script) (w : World) :
  NoDup (id <$> batch) ->
  Build.scripts manifest = [] ->
  Manager.mergeScripts batch (Manager.mkSt (Manager.mkManager cfg [] stamp callbacks) w)
    = (Normal tt, Manager.mkSt (Manager.mkManager cfg batch stamp callbacks) w) /\
  exists m' w',
    Build.mergeScripts manifest batch w = (Normal m', w') /\ Build.scripts m' = batch.
Proof.
  intros Hnd Hempty. split.
  - rewrite Manager_mergeScripts_run. cbn [Manager.this Manager.world Manager.config
      Manager.scripts Manager.lastUpdate Manager.updateCallbacks].
    now rewrite merge_loop_into_empty.
  - destruct (Build_mergeScripts_run manifest batch w) as (w' & Hrun & _).
    eexists. exists w'. split; [exact Hrun|]. cbn [Build.scripts].
    rewrite Hempty. now apply merge_loop_into_empty.
Qed.

Lemma mergeScripts_into_empty_witness :
  let batch := [sample "a" "one" "2024-01-01"; sample "b" "two" "2024-01-02"] in
  NoDup (id <$> batch) /\
  Build.scripts (sample_manifest []) = [] /\
  Manager.mergeScripts batch (Manager.mkSt (sample_manager []) sample_world)
    = (Normal tt, Manager.mkSt (sample_manager batch) sample_world) /\
  exists m' w',
    Build.mergeScripts (H := Iso.host) (sample_manifest []) batch sample_world
      = (Normal m', w') /\ Build.scripts m' = batch.
Proof.
  intros batch.
  assert (Hb : NoDup (id <$> batch)).
  { apply (bool_decide_unpack _). vm_compute. exact I. }
  split; [exact Hb|]. split; [reflexivity|].
  exact (mergeScripts_into_empty (H := Iso.host) _ None [] (sample_manifest [])
           batch sample_world Hb eq_refl).
Defined.

(** After a merge every record of the batch can be looked up by its id;
    what is found has that id and a [lastModified] that the batch record
    does not exceed in the order of the merge. *)
Theorem getById_after_merge (batch : list Script) (s : Manager.St) (script : Script) :
  In script batch ->
  exists s' found,
    Manager.mergeScripts batch s = (Normal tt, s') /\
    Manager.getById (id script) (Manager.this s') = Some found /\
    id found = id script /\
    JS.string_gt (lastModified script) (lastModified found) = false.
Proof.
  intros Hin.
  pose proof (covered_by_merge Manager.newer Manager_newer_settling
                (Manager.scripts (Manager.this s)) batch) as Hcov.
  rewrite Forall_forall in Hcov.
  destruct (Hcov script) as (c & Hfind & Hnewer); [now apply list_elem_of_In|].
  eexists. exists c. rewrite Manager_mergeScripts_run.
  split; [reflexivity|]. split; [exact Hfind|]. split; [|exact Hnewer].
  apply find_some in Hfind as [_ Hid]. now apply String.eqb_eq in Hid.
Qed.

Lemma getById_after_merge_witness :
  let batch := [sample "b" "two" "2024-01-03"; sample "c" "three" "2024-01-01"] in
  let s := Manager.mkSt (sample_manager [sample "b" "old" "2024-01-01"]) sample_world in
  In (sample "c" "three" "2024-01-01") batch /\
  exists s' found,
    Manager.mergeScripts batch s = (Normal tt, s') /\
    Manager.getById "c" (Manager.this s') = Some found /\
    id found = "c" /\
    JS.string_gt "2024-01-01" (lastModified found) = false.
Proof.
  intros batch s.
  assert (Hin : In (sample "c" "three" "2024-01-01") batch) by (right; left; reflexivity).
  split; [exact Hin|].
  exact (getById_after_merge batch s (sample "c" "three" "2024-01-01") Hin).
Defined.

Lemma find_self (l : list Script) (s : Script) :
  NoDup (id <$> l) -> In s l -> List.find (same_id s) l = Some s.
Proof.
  induction l as [|x l IH]; intros Hnd Hin; [destruct Hin|].
  rewrite fmap_cons in Hnd. apply NoDup_cons in Hnd as [Hx Hnd]. simpl.
  destruct Hin as [->|Hin].
  - unfold same_id. now rewrite String.eqb_refl.
  - destruct (same_id_spec s x) as [E|E]; [|now apply IH].
    exfalso. apply Hx. rewrite E. apply list_elem_of_fmap_2.
    now apply list_elem_of_In.
Qed.

Lemma merge_loop_self (newer : Script -> Script -> bool) (l : list Script) :
  settling newer -> NoDup (id <$> l) -> merge_loop newer l l = l.
Proof.
  intros Hs Hnd. apply (merge_covered_noop newer). apply Forall_forall.
  intros s Hin. exists s. split.
  - apply find_self; [exact Hnd | now apply list_elem_of_In].
  - now destruct Hs as [Hirr _].
Qed.

(** ** The cache: what is saved comes back *)

(** With a store that accepts the item and a collection without repeated
    ids, [saveToCache] followed by [loadFromCache] before the TTL has passed
    answers [true] and leaves the manager exactly as it was. *)
Theorem cache_round_trip (s : Manager.St) (store : gmap string Stored) :
  let w := Manager.world s in
  localStorage w = Some store ->
  storageFull w = false ->
  NoDup (id <$> Manager.scripts (Manager.this s)) ->
  clock w (S (ticks w)) - clock w (ticks w) < Manager.cacheTTL (Manager.config (Manager.this s)) ->
  exists s1 s2,
    Manager.saveToCache s = (Normal tt, s1) /\
    Manager.loadFromCache s1 = (Normal true, s2) /\
    Manager.this s2 = Manager.this s.
Proof.
  destruct s as [[cfg scr lu cbs] [ls sf con clk tk net rq ntf]].
  cbn [Manager.this Manager.world Manager.config Manager.scripts localStorage
       storageFull clock ticks].
  intros -> -> Hnd Hage.
  do 2 eexists. split; [reflexivity|].
  unfold Manager.loadFromCache, mbind, M_bind, get, try_catch.
  cbn [Manager.world Manager.this Manager.config localStorage].
  rewrite lookup_insert_eq.
  unfold Manager.in_world, zoom, Date_now.
  cbn [Manager.world Manager.this clock ticks].
  unfold JS.num_lt, JS.num_gt. cbn [fmap option_fmap option_map].
  apply Z.ltb_lt in Hage. rewrite Hage.
  rewrite Manager_mergeScripts_run.
  cbn [Manager.this Manager.world Manager.config Manager.scripts Manager.lastUpdate
       Manager.updateCallbacks].
  rewrite (merge_loop_self _ scr Manager_newer_settling Hnd).
  split; reflexivity.
Qed.

Lemma cache_round_trip_witness :
  let s := Manager.mkSt (sample_manager [sample "a" "one" "2024-01-01";
                                         sample "b" "two" "2024-01-02"]) sample_world in
  localStorage sample_world = Some ∅ /\
  storageFull sample_world = false /\
  NoDup (id <$> Manager.scripts (Manager.this s)) /\
  clock sample_world 1 - clock sample_world 0 < 300000 /\
  exists s1 s2,
    Manager.saveToCache s = (Normal tt, s1) /\
    Manager.loadFromCache s1 = (Normal true, s2) /\
    Manager.this s2 = Manager.this s.
Proof.
  intros s.
  assert (Hnd : NoDup (id <$> Manager.scripts (Manager.this s))).
  { apply (bool_decide_unpack _). vm_compute. exact I. }
  assert (Hage : clock sample_world 1 - clock sample_world 0 < 300000)
    by (vm_compute; reflexivity).
  split; [reflexivity|]. split; [reflexivity|]. split; [exact Hnd|].
  split; [exact Hage|].
  exact (cache_round_trip s ∅ eq_refl eq_refl Hnd Hage).
Defined.

(** ** Normalization: ids and descriptions *)

Lemma github_id_inj (a b : Z) :
  "github-" +:+ pretty a = "github-" +:+ pretty b -> a = b.
Proof.
  intros E. cbn in E. injection E as E. now apply pretty_Z_inj in E.
Qed.

Lemma or_else_nonempty (x : option string) (dflt : string) :
  dflt <> "" -> JS.or_else x dflt <> "".
Proof.
  intros Hd. unfold JS.or_else. destruct x as [s|]; [|exact Hd].
  destruct (String.eqb_spec s ""); assumption.
Qed.

(** Both normalizers give every record an id made of "github-" and the
    number of the repository, so that two repositories have the same id only
    when they have the same number, and a description that is never empty. *)
Theorem normalized_id_and_description (generateRepoCodeBlock : RawRepo -> string)
    (repo repo' : RawRepo) (script script' : Script) :
  (Manager.parseGitHubRepo generateRepoCodeBlock repo = Normal script /\
   Manager.parseGitHubRepo generateRepoCodeBlock repo' = Normal script') \/
  (Build.toScript generateRepoCodeBlock repo = Normal script /\
   Build.toScript generateRepoCodeBlock repo' = Normal script') ->
  id script = "github-" +:+ pretty (repo_id repo) /\
  description script <> "" /\
  (id script = id script' -> repo_id repo = repo_id repo').
Proof.
  unfold Manager.parseGitHubRepo, Build.toScript.
  destruct (repo_owner repo), (repo_owner repo');
    intros [[E E']|[E E']]; try discriminate;
    injection E as <-; injection E' as <-; cbn [id description];
    (split; [reflexivity|]); (split; [now apply or_else_nonempty|]);
    apply github_id_inj.
Qed.

Lemma normalized_id_and_description_witness :
  let repo := sample_raw 7 ["ahk"] in
  let repo' := sample_raw 8 [] in
  let gen := fun r : RawRepo => full_name r in
  exists script script',
    (Build.toScript gen repo = Normal script /\
     Build.toScript gen repo' = Normal script') /\
    id script = "github-7" /\
    description script = "No description available" /\
    id script' = "github-8".
Proof.
  intros repo repo' gen.
  destruct (Build.toScript gen repo) as [script|] eqn:E; [|discriminate].
  destruct (Build.toScript gen repo') as [script'|] eqn:E'; [|discriminate].
  exists script, script'. split; [split; reflexivity|].
  destruct (normalized_id_and_description gen repo repo' script script'
              (or_intror (conj E E'))) as (Hid & _ & _).
  split; [exact Hid|].
  injection E as <-. injection E' as <-. split; reflexivity.
Defined.

(** ** [build.js]: tags, freshness and the counts it reports *)

Lemma Build_tags_witness :
  let repo := sample_raw 7 ["t1"; "t2"; "t3"; "t4"; "t5"; "t6"; "t7"] in
  let gen := fun r : RawRepo => full_name r in
  exists script,
    Build.toScript gen repo = Normal script /\
    exists ts,
      tags script = Some ts /\
      ts = "github" :: "repository" :: take 6 (JS.or_empty (topics repo)) /\
      (List.length ts <= 8)%nat.
Proof.
  intros repo gen.
  destruct (Build.toScript gen repo) as [script|] eqn:E; [|discriminate].
  exists script. split; [reflexivity|]. exact (Build_tags gen repo script E).
Defined.

Lemma Build_merge_existing_witness :
  let stored := sample "a" "old" "2024-01-15" in
  let same_instant := sample "a" "new" "2024-01-15T00:00:00Z" in
  id same_instant ∈ (id <$> Build.scripts (sample_manifest [stored])) /\
  exists i existing m' w',
    JS.findIndex (same_id same_instant) [stored] = Z.of_nat i /\
    [stored] !! i = Some existing /\
    Build.mergeScripts (H := Iso.host) (sample_manifest [stored]) [same_instant]
      sample_world = (Normal m', w') /\
    Build.scripts m' =
      match Iso.parse (lastModified same_instant), Iso.parse (lastModified existing) with
      | Some t, Some t0 => if t0 <? t then <[i := same_instant]> [stored] else [stored]
      | _, _ => [stored]
      end.
Proof.
  intros stored same_instant.
  assert (Hin : id same_instant ∈ (id <$> Build.scripts (sample_manifest [stored])))
    by (cbn; left).
  split; [exact Hin|].
  exact (Build_merge_existing (H := Iso.host) (sample_manifest [stored]) same_instant
           sample_world Hin).
Defined.

Lemma Build_merge_step_counts `{Host} (l : list Script) (ids : gset string)
    (a u : Z) (script : Script) :
  exists l' ids' a' u',
    Build.merge_step (l, ids, a, u) script = (l', ids', a', u') /\
    Z.of_nat (List.length l') = Z.of_nat (List.length l) + (a' - a) /\
    a <= a' /\ u <= u' /\ (a' - a) + (u' - u) <= 1.
Proof.
  unfold Build.merge_step.
  destruct (negb (bool_decide (id script ∈ ids))).
  - do 4 eexists. split; [reflexivity|]. rewrite length_app. cbn [List.length].
    repeat split; lia.
  - destruct (0 <=? JS.findIndex (same_id script) l);
      [|do 4 eexists; split; [reflexivity|]; repeat split; lia].
    destruct (l !! Z.to_nat (JS.findIndex (same_id script) l)) as [e|];
      [|do 4 eexists; split; [reflexivity|]; repeat split; lia].
    destruct (Build.newer script e);
      do 4 eexists; (split; [reflexivity|]); rewrite ?length_insert;
      repeat split; lia.
Qed.

Lemma Build_merge_fold_counts `{Host} (batch l : list Script) (ids : gset string)
    (a u : Z) :
  exists l' ids' a' u',
    fold_left Build.merge_step batch (l, ids, a, u) = (l', ids', a', u') /\
    Z.of_nat (List.length l') = Z.of_nat (List.length l) + (a' - a) /\
    a <= a' /\ u <= u' /\ (a' - a) + (u' - u) <= Z.of_nat (List.length batch).
Proof.
  revert l ids a u. induction batch as [|s batch IH]; intros l ids a u.
  - exists l, ids, a, u. cbn. repeat split; lia.
  - destruct (Build_merge_step_counts l ids a u s)
      as (l1 & ids1 & a1 & u1 & Hstep & Hlen1 & Ha1 & Hu1 & Hsum1).
    destruct (IH l1 ids1 a1 u1) as (l' & ids' & a' & u' & Hfold & Hlen & Ha & Hu & Hsum).
    exists l', ids', a', u'. cbn [fold_left]. rewrite Hstep.
    split; [exact Hfold|]. cbn [List.length]. repeat split; lia.
Qed.

(** The line [mergeScripts] of [build.js] logs tells the truth: the manifest
    has grown by exactly the number of added scripts, and added and updated
    scripts together are at most the records of the batch. *)
Theorem Build_mergeScripts_counts `{Host} (manifest : Build.Manifest)
    (batch : list Script) (w : World) :
  exists m' w' added updated,
    Build.mergeScripts manifest batch w = (Normal m', w') /\
    console w' = console w ++
      [mkLog LogInfo
         (Build.prefix Build.info +:+ " " +:+
          ("Added " +:+ pretty added +:+ " new scripts, updated "
           +:+ pretty updated +:+ " existing")) None] /\
    Z.of_nat (List.length (Build.scripts m')) =
      Z.of_nat (List.length (Build.scripts manifest)) + added /\
    0 <= added /\ 0 <= updated /\
    added + updated <= Z.of_nat (List.length batch).
Proof.
  destruct (Build_merge_fold_counts batch (Build.scripts manifest)
              (list_to_set (id <$> Build.scripts manifest)) 0 0)
    as (l' & ids' & a' & u' & Hfold & Hlen & Ha & Hu & Hsum).
  unfold Build.mergeScripts. rewrite Hfold.
  do 2 eexists. exists a', u'. split; [reflexivity|].
  split; [reflexivity|]. cbn [Build.scripts]. repeat split; lia.
Qed.

(** ** [update-feed.js]: the feed it builds *)

Lemma fetch_loop_total `{Host} (queries : list string) (allRepos : list FeedRepo.t)
    (w : World) :
  exists repos w', UpdateFeed.fetch_loop queries allRepos w = (Normal repos, w').
Proof.
  revert allRepos w. induction queries as [|q rest IH]; intros allRepos w.
  - now exists allRepos, w.
  - destruct (fetch_query_run allRepos q w) as (w1 & e1 & Hrun & _).
    cbn [UpdateFeed.fetch_loop]. unfold mbind, M_bind. rewrite Hrun. apply IH.
Qed.

Lemma dedup_filter_fixed (seen : gset Z) (repos : list FeedRepo.t) :
  NoDup (FeedRepo.id <$> repos) ->
  (forall x, x ∈ (FeedRepo.id <$> repos) -> x ∉ seen) ->
  UpdateFeed.dedup_filter seen repos = repos.
Proof.
  revert seen. induction repos as [|r rest IH]; intros seen Hnd Hfresh; [reflexivity|].
  rewrite fmap_cons in Hnd, Hfresh. apply NoDup_cons in Hnd as [Hr Hnd]. simpl.
  rewrite bool_decide_eq_false_2 by (apply Hfresh; left).
  f_equal. apply IH; [exact Hnd|]. intros x Hx.
  rewrite elem_of_union, elem_of_singleton. intros [->|Hs]; [contradiction|].
  apply (Hfresh x); [now right | exact Hs].
Qed.

(** [deduplicateRepos] leaves a batch without repeated ids as it is, so
    deduplicating twice is deduplicating once. *)
Theorem deduplicateRepos_idempotent (repos : list FeedRepo.t) :
  (NoDup (FeedRepo.id <$> repos) -> UpdateFeed.deduplicateRepos repos = repos) /\
  UpdateFeed.deduplicateRepos (UpdateFeed.deduplicateRepos repos)
    = UpdateFeed.deduplicateRepos repos.
Proof.
  assert (Hfix : forall l, NoDup (FeedRepo.id <$> l) ->
                           UpdateFeed.deduplicateRepos l = l).
  { intros l Hnd. apply dedup_filter_fixed; [exact Hnd|].
    intros x _. apply not_elem_of_empty. }
  split; [apply Hfix|]. apply Hfix. apply dedup_filter_NoDup.
Qed.

(** [sortByUpdated] on repositories with valid dates: the same
    repositories, latest update first, repositories with the same update
    time in the order they had. *)
Theorem sortByUpdated_sorted `{Host} (repos : list FeedRepo.t) :
  let key := fun r => getTime (FeedRepo.updated_at r) in
  Forall (fun r => is_Some (key r)) repos ->
  UpdateFeed.sortByUpdated repos ≡ₚ repos /\
  StronglySorted (not_older key) (UpdateFeed.sortByUpdated repos) /\
  (forall t, List.filter (has_key key t) (UpdateFeed.sortByUpdated repos)
             = List.filter (has_key key t) repos).
Proof.
  intros key Hvalid. split; [apply sort_perm|]. split.
  - apply (sort_sorted key). exact Hvalid.
  - intros t. apply (sort_stable key).
Qed.

Lemma sortByUpdated_sorted_witness :
  let repos := [sample_feed 1 "octo/a" "2024-01-01T00:00:00Z";
                sample_feed 2 "octo/b" "2024-01-03T00:00:00Z";
                sample_feed 3 "octo/c" "2024-01-03T00:00:00Z"] in
  let key := fun r => Iso.parse (FeedRepo.updated_at r) in
  Forall (fun r => is_Some (key r)) repos /\
  UpdateFeed.sortByUpdated (H := Iso.host) repos ≡ₚ repos /\
  StronglySorted (not_older key) (UpdateFeed.sortByUpdated (H := Iso.host) repos) /\
  (forall t, List.filter (has_key key t) (UpdateFeed.sortByUpdated (H := Iso.host) repos)
             = List.filter (has_key key t) repos).
Proof.
  intros repos key.
  assert (Hv : Forall (fun r => is_Some (key r)) repos).
  { repeat constructor; vm_compute; eauto. }
  split; [exact Hv|]. exact (sortByUpdated_sorted (H := Iso.host) repos Hv).
Defined.

(** [updateFeed] never throws; with a limit that is not negative the feed
    it returns holds no two repositories with the same id and at most
    [limit] of them, and [total_count] is their number. *)
Theorem updateFeed_feed `{Host} (cfg : UpdateFeed.Config) (w : World) (n : Z) :
  UpdateFeed.limit cfg = Some n ->
  0 <= n ->
  exists feed w',
    UpdateFeed.updateFeed cfg w = (Normal feed, w') /\
    NoDup (FeedRepo.id <$> UpdateFeed.repositories feed) /\
    Z.of_nat (List.length (UpdateFeed.repositories feed)) <= n /\
    UpdateFeed.total_count (UpdateFeed.metadata feed)
      = Z.of_nat (List.length (UpdateFeed.repositories feed)) /\
    UpdateFeed.queries_used (UpdateFeed.metadata feed) = UpdateFeed.queries cfg.
Proof.
  intros Hlimit Hn.
  destruct w as [ls sf con clk tk net rq ntf].
  unfold UpdateFeed.updateFeed, mbind, M_bind, Console.log, Console.write, modify,
    Date_now, mret, M_ret.
  cbn [localStorage storageFull console clock ticks network requests notified].
  edestruct (fetch_loop_total (UpdateFeed.queries cfg) []) as (repos & w1 & Hloop).
  rewrite Hloop. destruct w1 as [ls1 sf1 con1 clk1 tk1 net1 rq1 ntf1].
  cbn [localStorage storageFull console clock ticks network requests notified].
  rewrite Hlimit. cbn [default from_option Datatypes.id].
  set (sorted := UpdateFeed.sortByUpdated (UpdateFeed.deduplicateRepos repos)).
  assert (Hnd : NoDup (FeedRepo.id <$> sorted)).
  { assert (Hperm : FeedRepo.id <$> sorted
                     ≡ₚ FeedRepo.id <$> UpdateFeed.deduplicateRepos repos)
      by (apply fmap_Permutation, sort_perm).
    rewrite Hperm. apply dedup_filter_NoDup. }
  do 2 eexists. split; [reflexivity|].
  cbn [UpdateFeed.repositories UpdateFeed.metadata UpdateFeed.total_count
       UpdateFeed.queries_used].
  unfold JS.num_gt. destruct (Z.ltb_spec n (Z.of_nat (List.length sorted))) as [Hlt|Hge].
  - rewrite slice_from_0 by exact Hn. repeat split.
    + rewrite fmap_take. exact (sublist_NoDup _ _ Hnd (sublist_take _ _)).
    + pose proof (length_take sorted (Z.to_nat n)) as Hlen.
      change (@length) with (@List.length) in Hlen. lia.
  - repeat split; [exact Hnd | exact Hge].
Qed.
